(** * DocumentService (docs-app): the document fetching cache

    A shallow embedding of
    [projects/docs-app/src/app/documents/document.service.ts].

    The service keeps a [Map] from document ids to the observable side of an
    [AsyncSubject]; a subject is fed by one [HttpClient.get] request piped
    through [map], [tap] and [catchError].  The transport answers in a later
    turn of the event loop, so the embedding is a transition system whose
    events are "the location emits a path" and "the transport answers request
    number k".  Everything the service does inside one turn is a function on
    an explicit state.

    [currentDocument] is taken with one subscriber, the document viewer.
    The [Logger] is observational only and is left out. *)

From stdpp Require Import base strings list gmap.
From Stdlib Require Import ZArith Lia.

Local Open Scope string_scope.
Local Open Scope Z_scope.
Local Open Scope nat_scope.
Local Open Scope list_scope.

Set Warnings "-clear-no-such-hyp".

(** ** JavaScript values that occur in the service *)

(** What the markdown renderer may hand back for [contents]. *)
Inductive Markup :=
| MUndefined
| MNull
| MString (s : string).

Record DocumentContents := mkDoc { id : string; contents : Markup }.

Inductive JsValue :=
| JsUndefined
| JsNull
| JsString (s : string)
| JsFunction (name : string)          (* a built-in method of Object.prototype *)
| JsObjectPrototype                   (* the object Object.prototype itself *)
| JsDocument (d : DocumentContents).  (* an object literal { id, contents } *)

(** ToBoolean, as used by [!x], [x || y] and [if (x)]. *)
Definition truthy (v : JsValue) : bool :=
  match v with
  | JsUndefined | JsNull => false
  | JsString s => negb (String.eqb s EmptyString)
  | JsFunction _ | JsObjectPrototype | JsDocument _ => true
  end.

Definition typeof (v : JsValue) : string :=
  match v with
  | JsUndefined => "undefined"
  | JsNull => "object"
  | JsString _ => "string"
  | JsFunction _ => "function"
  | JsObjectPrototype | JsDocument _ => "object"
  end.

(** What is thrown or delivered on the error channel of an observable:
    an [HttpErrorResponse] of the transport, or a plain [Error], which has
    no [status] property. *)
Inductive Thrown :=
| HttpErrorResponse (status : Z)
| Error (message : string).

Definition status_is_404 (e : Thrown) : bool :=
  match e with
  | HttpErrorResponse s => Z.eqb s 404
  | Error _ => false
  end.

(** A call that either returns or throws. *)
Inductive Result (A : Type) :=
| Returns (a : A)
| Throws (e : Thrown).
Arguments Returns {A} a.
Arguments Throws {A} e.

(** ** Constants of the module *)

Definition FILE_NOT_FOUND_ID : string := "file-not-found".
Definition FETCHING_ERROR_ID : string := "fetching-error".
Definition CONTENT_URL_PREFIX : string := "content/".
Definition DOC_CONTENT_URL_PREFIX : string := CONTENT_URL_PREFIX ++ "docs/".

Definition dquote : string := String (Ascii.ascii_of_nat 34) EmptyString.

Definition FETCHING_ERROR_CONTENTS : string :=
"
  <div class=" ++ dquote ++ "nf-container l-flex-wrap flex-center" ++ dquote ++ ">
    <div class=" ++ dquote ++ "nf-icon material-icons" ++ dquote ++ ">error_outline</div>
    <div class=" ++ dquote ++ "nf-response l-flex-wrap" ++ dquote ++ ">
      <h1 class=" ++ dquote ++ "no-toc" ++ dquote ++ ">Request for document failed.</h1>
      <p>
        We are unable to retrieve the " ++ dquote ++ "<current-location></current-location>" ++ dquote ++ " page at this time.
        Please check your connection and try again later.
      </p>
    </div>
  </div>
".

(** ** Identifier resolution (first half of [fetchDocument]) *)

(** The own properties of the object literal [indexMap]. *)
Definition indexMap_own : list (string * string) :=
  [ ("guide/store", "guide/store/index");
    ("guide/effects", "guide/effects/index");
    ("guide/entity", "guide/entity/index");
    ("guide/router-store", "guide/router-store/index");
    ("guide/store-devtools", "guide/store-devtools/index");
    ("guide/data", "guide/data/index");
    ("guide/schematics", "guide/schematics/index") ].

(** [indexMap] is an ordinary object: a property read that misses the own
    properties goes on to Object.prototype.  These are its methods; the
    accessor [__proto__] yields Object.prototype itself. *)
Definition Object_prototype_methods : list string :=
  [ "constructor"; "hasOwnProperty"; "isPrototypeOf"; "propertyIsEnumerable";
    "toLocaleString"; "toString"; "valueOf";
    "__defineGetter__"; "__defineSetter__"; "__lookupGetter__"; "__lookupSetter__" ].

Fixpoint assoc (k : string) (l : list (string * string)) : option string :=
  match l with
  | [] => None
  | (k', v) :: l' => if String.eqb k k' then Some v else assoc k l'
  end.

(** The property read [indexMap[key]]. *)
Definition indexMap_get (key : string) : JsValue :=
  match assoc key indexMap_own with
  | Some v => JsString v
  | None =>
      if String.eqb key "__proto__" then JsObjectPrototype
      else if existsb (String.eqb key) Object_prototype_methods then JsFunction key
      else JsUndefined
  end.

Definition placeholders : list string := [ "resources"; "events" ].

(** [Array.prototype.find]. *)
Definition array_find (p : string -> bool) (l : list string) : JsValue :=
  match List.find p l with
  | Some x => JsString x
  | None => JsUndefined
  end.

(** [url || 'index'] in [getDocument]. *)
Definition document_id (url : string) : string :=
  if truthy (JsString url) then url else "index".

(** The local [doc] of [fetchDocument] once the two [if]s have run. *)
Definition source_doc (id : string) : JsValue :=
  let placeholder := array_find (fun ph => String.eqb ph id) placeholders in
  if truthy (indexMap_get id) then indexMap_get id
  else if truthy placeholder then JsString "placeholder"
  else JsString id.

(** The source document as section 4.1 of the specification words it: the
    alias if the id is a key of the alias table, the placeholder if the id is
    in the placeholder set, the id otherwise. *)
Definition spec_source_doc (id : string) : string :=
  match assoc id indexMap_own with
  | Some v => v
  | None => if existsb (String.eqb id) placeholders then "placeholder" else id
  end.

(** The names a read of [indexMap] finds on Object.prototype. *)
Definition inherited (key : string) : bool :=
  String.eqb key "__proto__" || existsb (String.eqb key) Object_prototype_methods.

(** ** Observables *)

(** Every source in this service either emits one value and completes
    ([http.get] of a text, [of(x)], a completed [AsyncSubject]) or errors. *)
Inductive Notification (A : Type) :=
| Emit (a : A)        (* next(a); complete() *)
| Raise (e : Thrown).  (* error(e) *)
Arguments Emit {A} a.
Arguments Raise {A} e.

(** The operator [map(f)]: an exception of [f] goes to the error channel. *)
Definition rx_map {A B} (f : A -> Result B) (n : Notification A) : Notification B :=
  match n with
  | Emit a => match f a with Returns b => Emit b | Throws e => Raise e end
  | Raise e => Raise e
  end.

(** The operator [tap(f)]: the value passes unless [f] throws. *)
Definition rx_tap {A} (f : A -> Result unit) (n : Notification A) : Notification A :=
  match n with
  | Emit a => match f a with Returns _ => Emit a | Throws e => Raise e end
  | Raise e => Raise e
  end.

(** The observables the service hands around: [of(d)], or
    [subject.asObservable()] for the subject of the [h]-th call of
    [fetchDocument]. *)
Inductive Observable :=
| Of (d : DocumentContents)
| AsObservable (h : nat).

(** One record per call of [fetchDocument]: the variables its closures
    capture ([id], [requestPath]), whether the transport has answered the
    request it issued, and the state of its [AsyncSubject]. *)
Record Fetch := mkFetch {
  fetch_id : string;
  fetch_url : string;
  answered : bool;
  outcome : option (Notification DocumentContents);  (* None: not stopped yet *)
  observers : list nat  (* subjects fed by a catchError subscribed here *)
}.

(** [currentDocument]: the running [switchMap]. *)
Record SwitchMap := mkSwitchMap {
  innerSubscription : option nat;       (* the subject it listens to *)
  delivered : list DocumentContents;    (* values emitted so far *)
  errored : option Thrown
}.

Record State := mkState {
  cache : gmap string Observable;
  fetches : list Fetch;
  currentDocument : SwitchMap
}.

Definition init : State :=
  mkState ∅ [] (mkSwitchMap None [] None).

Definition set_cache (c : gmap string Observable) (st : State) : State :=
  mkState c (fetches st) (currentDocument st).
Definition set_fetches (fs : list Fetch) (st : State) : State :=
  mkState (cache st) fs (currentDocument st).
Definition set_currentDocument (s : SwitchMap) (st : State) : State :=
  mkState (cache st) (fetches st) s.

(** The transport log: the paths requested with [http.get], in order. *)
Definition transport_calls (st : State) : list string :=
  fetch_url <$> fetches st.

(** *** The subjects *)

(** The inner subscriber of [switchMap] receives [n]. *)
Definition inner_notify (n : Notification DocumentContents) (s : SwitchMap) : SwitchMap :=
  match n with
  | Emit d => mkSwitchMap None (delivered s ++ [d]) (errored s)
  | Raise e => mkSwitchMap None (delivered s) (Some e)
  end.

Definition stream_notify (h : nat) (n : Notification DocumentContents) (st : State) : State :=
  if decide (innerSubscription (currentDocument st) = Some h)
  then set_currentDocument (inner_notify n (currentDocument st)) st
  else st.

Definition resolved (n : Notification DocumentContents) (f : Fetch) : Fetch :=
  mkFetch (fetch_id f) (fetch_url f) (answered f) (Some n) [].

(** Subject [h] receives [n] from its source: unless it is stopped
    already it latches [n], tells its observers and drops them.  An
    observer is the inner subscriber of a [catchError], which passes [n]
    on to the subject that pipe feeds.  The place of the [switchMap]
    subscriber among the observers does not matter, it touches
    [currentDocument] only. *)
Fixpoint settle (fuel : nat) (h : nat) (n : Notification DocumentContents)
    (st : State) : State :=
  match fuel with
  | 0 => st
  | S fuel' =>
      match fetches st !! h with
      | Some f =>
          match outcome f with
          | Some _ => st
          | None =>
              let st1 := set_fetches (<[h := resolved n f]> (fetches st)) st in
              foldl (fun acc t => settle fuel' t n acc) (stream_notify h n st1) (observers f)
          end
      | None => st
      end
  end.

(** A chain of notifications visits a subject at most once, hence the fuel:
    one unit more than there are subjects.  In the states the service
    reaches a chain is two subjects long at most ([deliver_spec] below). *)
Definition deliver (h : nat) (n : Notification DocumentContents) (st : State) : State :=
  settle (S (length (fetches st))) h n st.

(** The inner subscriber of the [catchError] that feeds subject [t]
    subscribes to [o]. *)
Definition subscribe (o : Observable) (t : nat) (st : State) : State :=
  match o with
  | Of d => deliver t (Emit d) st
  | AsObservable h =>
      match fetches st !! h with
      | Some f =>
          match outcome f with
          | Some n => deliver t n st
          | None =>
              set_fetches
                (<[h := mkFetch (fetch_id f) (fetch_url f) (answered f) None (observers f ++ [t])]>
                   (fetches st)) st
          end
      | None => st
      end
  end.

(** ** The transport, and the events of the system *)

Inductive HttpResponse :=
| Ok (body : string)
| Failure (status : Z).

Definition transport (resp : HttpResponse) : Notification string :=
  match resp with
  | Ok body => Emit body
  | Failure status => Raise (HttpErrorResponse status)
  end.

(** The callback of [tap]. *)
Definition invalid_data (data : JsValue) : bool :=
  negb (truthy data) || negb (String.eqb (typeof data) "object").

Definition check_data (data : DocumentContents) : Result unit :=
  if invalid_data (JsDocument data)
  then Throws (Error "Invalid data")
  else Returns tt.

Inductive Event :=
| Navigate (path : string)
| Respond (k : nat) (resp : HttpResponse).

(** The transport has answered request [k]. *)
Definition mark_answered (k : nat) (st : State) : State :=
  match fetches st !! k with
  | Some f =>
      set_fetches
        (<[k := mkFetch (fetch_id f) (fetch_url f) true (outcome f) (observers f)]>
           (fetches st)) st
  | None => st
  end.

(** The fetches of the not-found document made so far. *)
Definition not_found_fetches (st : State) : list Fetch :=
  filter (fun f => fetch_id f = FILE_NOT_FOUND_ID) (fetches st).

(** *** Collaborators to run the service with *)

(** A renderer that wraps the text in a paragraph, one that returns null,
    and the text V8 prints for the built-in function found under a name of
    Object.prototype ([constructor] is the function [Object]). *)
Definition paragraph_renderer (text : string) : Result Markup :=
  Returns (MString ("<p>" +:+ text +:+ "</p>")).

Definition null_renderer (text : string) : Result Markup :=
  Returns MNull.

Definition v8_functionSource (name : string) : string :=
  "function " +:+ (if String.eqb name "constructor" then "Object" else name)
  +:+ "() { [native code] }".

(** *** What a chain of notifications amounts to *)

(** All the subjects in [hs] latch [n] and drop their observers, and the
    [switchMap] hears of it if it listens to one of them.  [settle] is shown
    below to compute this when the observers of the subject it starts from
    have no observers themselves. *)
Definition settle_all (hs : list nat) (n : Notification DocumentContents)
    (st : State) : State :=
  mkState (cache st)
    (imap (fun k g => if decide (k ∈ hs) then resolved n g else g) (fetches st))
    (match innerSubscription (currentDocument st) with
     | Some x =>
         if decide (x ∈ hs) then inner_notify n (currentDocument st)
         else currentDocument st
     | None => currentDocument st
     end).

Definition is_leaf (st : State) (t : nat) : Prop :=
  exists ft, fetches st !! t = Some ft /\ outcome ft = None /\ observers ft = [].

Section Service.

(** [location.getBaseHref()], read once by the constructor. *)
Variable baseHref : string.

(** [markdownService.compile], the render collaborator. *)
Variable compile : string -> Result Markup.

(** The text that the built-in function found under a name of
    Object.prototype converts to; the standard leaves its exact layout to the
    engine. *)
Variable functionSource : string -> string.

(** ToString, as applied by a template literal. *)
Definition ToString (v : JsValue) : string :=
  match v with
  | JsUndefined => "undefined"
  | JsNull => "null"
  | JsString s => s
  | JsFunction name => functionSource name
  | JsObjectPrototype | JsDocument _ => "[object Object]"
  end.

Definition requestPath (id : string) : string :=
  baseHref ++ DOC_CONTENT_URL_PREFIX ++ ToString (source_doc id) ++ ".md".

(** ** The methods of [DocumentService] *)

(** [fetchDocument]: the request is issued by the [subscribe(subject)] at
    the end of the pipe; its answer comes with [respond] below. *)
Definition fetchDocument (id : string) (st : State) : State * Observable :=
  let subject := length (fetches st) in
  (set_fetches (fetches st ++ [mkFetch id (requestPath id) false None []]) st,
   AsObservable subject).

(** [getDocument].  [cache.get(id)!] after the [if] is the entry that was
    found, or the one just set. *)
Definition getDocument (url : string) (st : State) : State * Observable :=
  let id := document_id url in
  match cache st !! id with
  | Some o => (st, o)
  | None =>
      let '(st1, o) := fetchDocument id st in
      (set_cache (<[id := o]> (cache st1)) st1, o)
  end.

Definition getFileNotFoundDoc (id : string) (st : State) : State * Observable :=
  if negb (String.eqb id FILE_NOT_FOUND_ID)
  then getDocument FILE_NOT_FOUND_ID st
  else (st, Of (mkDoc FILE_NOT_FOUND_ID (MString "Document not found"))).

Definition getErrorDoc (id : string) (error : Thrown) (st : State) : State * Observable :=
  (set_cache (delete id (cache st)) st,
   Of (mkDoc FETCHING_ERROR_ID (MString FETCHING_ERROR_CONTENTS))).

(** *** The pipe of [fetchDocument] *)

(** The callback of [map]. *)
Definition to_document (id : string) (data : string) : Result DocumentContents :=
  match compile data with
  | Returns c => Returns (mkDoc id c)
  | Throws e => Throws e
  end.

(** The selector of [catchError]. *)
Definition recover (id : string) (error : Thrown) (st : State) : State * Observable :=
  if status_is_404 error
  then getFileNotFoundDoc id st
  else getErrorDoc id error st.

(** The pipe of [fetchDocument] for [id], up to [catchError], on the answer
    of the transport. *)
Definition pipe (id : string) (resp : HttpResponse) : Notification DocumentContents :=
  rx_tap check_data (rx_map (to_document id) (transport resp)).

(** The transport answers request [k]: what comes out of the pipe goes to
    the subject, an error through [catchError] first. *)
Definition respond (k : nat) (resp : HttpResponse) (st : State) : State :=
  match fetches st !! k with
  | Some f =>
      if answered f then st
      else
        let st1 := mark_answered k st in
        match pipe (fetch_id f) resp with
        | Emit d => deliver k (Emit d) st1
        | Raise e =>
            let '(st2, o) := recover (fetch_id f) e st1 in
            subscribe o k st2
        end
  | None => st
  end.

(** *** The constructor's [switchMap] *)

(** [location.currentPath] emits [path]: the previous inner subscription is
    dropped and the result of [getDocument(path)] subscribed instead; a
    completed subject replays its value at once. *)
Definition navigate (path : string) (st : State) : State :=
  let s := currentDocument st in
  match errored s with
  | Some _ => st
  | None =>
      let st0 := set_currentDocument (mkSwitchMap None (delivered s) (errored s)) st in
      let '(st1, o) := getDocument path st0 in
      match o with
      | Of d => set_currentDocument (inner_notify (Emit d) (currentDocument st1)) st1
      | AsObservable h =>
          match fetches st1 !! h with
          | Some f =>
              match outcome f with
              | Some n => set_currentDocument (inner_notify n (currentDocument st1)) st1
              | None =>
                  set_currentDocument
                    (mkSwitchMap (Some h) (delivered (currentDocument st1))
                       (errored (currentDocument st1))) st1
              end
          | None => st1
          end
      end
  end.

(** ** The transition system *)

Definition step (st : State) (ev : Event) : State :=
  match ev with
  | Navigate path => navigate path st
  | Respond k resp => respond k resp st
  end.

Definition run (evs : list Event) (st : State) : State := foldl step st evs.

(** ** Well-formed states *)

Definition fetching_error_document : DocumentContents :=
  mkDoc FETCHING_ERROR_ID (MString FETCHING_ERROR_CONTENTS).

Definition not_found_document : DocumentContents :=
  mkDoc FILE_NOT_FOUND_ID (MString "Document not found").

(** What holds of every state the service can be in between two turns
    ([x = None]), and inside the turn that answers request [k]
    ([x = Some k]). *)
Record wf_at (x : option nat) (st : State) : Prop := {
  (* a fetch asks for the source path of its id, and ids are not empty *)
  wf_url : forall k f, fetches st !! k = Some f ->
    fetch_url f = requestPath (fetch_id f) /\ fetch_id f <> EmptyString;
  (* the cache maps an id to the subject of a fetch of that id *)
  wf_cache : forall i o, cache st !! i = Some o ->
    exists h f, o = AsObservable h /\ fetches st !! h = Some f /\ fetch_id f = i;
  (* a fetch is the cached one of its id, or it ended in the error document *)
  wf_cached : forall k f, fetches st !! k = Some f ->
    cache st !! fetch_id f = Some (AsObservable k)
    \/ outcome f = Some (Emit fetching_error_document);
  (* a subject stays open until its request is answered *)
  wf_pending : forall k f, fetches st !! k = Some f ->
    answered f = false -> outcome f = None;
  (* only the pipes of other ids, after a 404, listen to a subject, and then
     to an open one of the not-found document *)
  wf_observers : forall h f t, fetches st !! h = Some f -> t ∈ observers f ->
    outcome f = None /\ fetch_id f = FILE_NOT_FOUND_ID /\
    exists ft, fetches st !! t = Some ft /\ fetch_id ft <> FILE_NOT_FOUND_ID /\
               answered ft = true /\ outcome ft = None;
  (* the pipe of the not-found document never waits for another subject *)
  wf_fnf : forall k f, fetches st !! k = Some f ->
    fetch_id f = FILE_NOT_FOUND_ID -> outcome f = None ->
    answered f = false \/ x = Some k;
  (* the pipe that is running has not subscribed anywhere yet *)
  wf_running : forall k h f, x = Some k -> fetches st !! h = Some f ->
    k ∉ observers f;
  (* a pipe whose request is answered has completed its subject, or waits
     for the subject of the not-found document *)
  wf_waiting : forall k f, fetches st !! k = Some f ->
    answered f = true -> outcome f = None ->
    x = Some k \/ exists h fh, fetches st !! h = Some fh /\ k ∈ observers fh;
  (* a stopped subject holds a document, never an error *)
  wf_outcome : forall k f n, fetches st !! k = Some f ->
    outcome f = Some n -> exists d, n = Emit d;
  (* switchMap listens to an open subject, and has not failed *)
  wf_inner : forall h, innerSubscription (currentDocument st) = Some h ->
    exists f, fetches st !! h = Some f /\ outcome f = None;
  wf_stream : errored (currentDocument st) = None
}.

Definition wf : State -> Prop := wf_at None.

(** What [currentDocument] looks like once the subjects in [hs] have
    latched [n]. *)
Definition stream_after (hs : list nat) (n : Notification DocumentContents)
    (s : SwitchMap) : SwitchMap :=
  match innerSubscription s with
  | Some x => if decide (x ∈ hs) then inner_notify n s else s
  | None => s
  end.

(** The answer to the request of a fetch of [i] ends in [getErrorDoc]. *)
Definition generic_failure (i : string) (resp : HttpResponse) : Prop :=
  exists e, pipe i resp = Raise e /\ status_is_404 e = false.

(** A run of answers of the transport, without navigation. *)
Definition responses (rs : list (nat * HttpResponse)) : list Event :=
  (fun r => Respond r.1 r.2) <$> rs.

(** [switchMap] has delivered [D] and listens to subject [h], or it has
    delivered [D] and then the document of [h], and listens to nothing. *)
Definition stream_tracks (h : nat) (D : list DocumentContents) (st : State) : Prop :=
  (innerSubscription (currentDocument st) = Some h
   /\ delivered (currentDocument st) = D)
  \/ (innerSubscription (currentDocument st) = None
      /\ exists d f, delivered (currentDocument st) = D ++ [d]
           /\ fetches st !! h = Some f /\ outcome f = Some (Emit d)).

(** * Properties *)

(** ** Notifications *)

Lemma settle_S fuel h n st :
  settle (S fuel) h n st
  = match fetches st !! h with
    | Some f =>
        match outcome f with
        | Some _ => st
        | None =>
            foldl (fun acc t => settle fuel t n acc)
              (stream_notify h n (set_fetches (<[h := resolved n f]> (fetches st)) st))
              (observers f)
        end
    | None => st
    end.
Proof. reflexivity. Qed.

Lemma settle_stopped fuel t n st ft m :
  fetches st !! t = Some ft -> outcome ft = Some m -> settle fuel t n st = st.
Proof.
  intros Hft Hm. destruct fuel as [|fuel]; simpl; [done|].
  by rewrite Hft, Hm.
Qed.

Lemma settle_leaf fuel t n st ft :
  fetches st !! t = Some ft -> outcome ft = None -> observers ft = [] ->
  settle (S fuel) t n st
  = stream_notify t n (set_fetches (<[t := resolved n ft]> (fetches st)) st).
Proof.
  intros Hft Ho Hobs. simpl. by rewrite Hft, Ho, Hobs.
Qed.

Lemma settle_all_snoc_old l0 t n st :
  t ∈ l0 -> settle_all (l0 ++ [t]) n st = settle_all l0 n st.
Proof.
  intros Ht. unfold settle_all. f_equal.
  - apply imap_ext. intros k g _.
    destruct (decide (k ∈ l0 ++ [t])) as [Hk|Hk], (decide (k ∈ l0)) as [Hk'|Hk'];
      try done; exfalso; set_solver.
  - destruct (innerSubscription (currentDocument st)) as [x|]; [|done].
    destruct (decide (x ∈ l0 ++ [t])) as [Hk|Hk], (decide (x ∈ l0)) as [Hk'|Hk'];
      try done; exfalso; set_solver.
Qed.

Lemma settle_all_step fuel l0 t n st :
  is_leaf st t ->
  settle (S fuel) t n (settle_all l0 n st) = settle_all (l0 ++ [t]) n st.
Proof.
  intros (ft & Hft & Ho & Hobs).
  destruct (decide (t ∈ l0)) as [Hin|Hin].
  - rewrite settle_all_snoc_old by done.
    apply settle_stopped with (ft := resolved n ft) (m := n); [|done].
    unfold settle_all; simpl. rewrite list_lookup_imap, Hft; simpl.
    by rewrite decide_True.
  - assert (Hlk : fetches (settle_all l0 n st) !! t = Some ft).
    { unfold settle_all; simpl. rewrite list_lookup_imap, Hft; simpl.
      by rewrite decide_False. }
    rewrite (settle_leaf _ _ _ _ _ Hlk Ho Hobs).
    unfold stream_notify, set_fetches, set_currentDocument, settle_all; simpl.
    assert (Hfs :
      <[t:=resolved n ft]>
        (imap (fun k g => if decide (k ∈ l0) then resolved n g else g) (fetches st))
      = imap (fun k g => if decide (k ∈ l0 ++ [t]) then resolved n g else g) (fetches st)).
    { apply list_eq. intros j.
      rewrite list_lookup_insert, !list_lookup_imap, length_imap.
      destruct (decide (t = j ∧ t < length (fetches st))) as [[-> Hlt]|Hne].
      - rewrite Hft; simpl. rewrite decide_True by set_solver. done.
      - destruct (fetches st !! j) as [g|] eqn:Hg; simpl; [|done].
        assert (t ≠ j).
        { intros ->. apply Hne. split; [done|]. by eapply lookup_lt_Some. }
        destruct (decide (j ∈ l0)) as [Hk|Hk], (decide (j ∈ l0 ++ [t])) as [Hk'|Hk'];
          try done; exfalso; set_solver. }
    destruct (innerSubscription (currentDocument st)) as [x|] eqn:Hx.
    + destruct (decide (x ∈ l0)) as [Hk|Hk].
      * rewrite (decide_True _ _ (proj2 (elem_of_app l0 [t] x) (or_introl Hk))).
        assert (Hnone : innerSubscription (inner_notify n (currentDocument st)) = None)
          by (by destruct n).
        rewrite Hnone. rewrite decide_False by done. by rewrite Hfs.
      * rewrite Hx. destruct (decide (Some x = Some t)) as [Heq|Hneq].
        -- injection Heq as ->. rewrite decide_True by set_solver. by rewrite Hfs.
        -- rewrite decide_False by (intros Hc; apply Hneq; f_equal; set_solver).
           by rewrite Hfs.
    + rewrite Hx. rewrite decide_False by done. by rewrite Hfs.
Qed.

Lemma is_leaf_settle_all l0 n st t :
  is_leaf st t -> t ∉ l0 -> is_leaf (settle_all l0 n st) t.
Proof.
  intros (ft & Hft & Ho & Hobs) Hin. exists ft. split; [|done].
  unfold settle_all; simpl. rewrite list_lookup_imap, Hft; simpl.
  by rewrite decide_False.
Qed.

Lemma settle_all_fold fuel l n st : forall l0,
  (forall t, t ∈ l -> is_leaf st t) ->
  foldl (fun acc t => settle (S fuel) t n acc) (settle_all l0 n st) l
  = settle_all (l0 ++ l) n st.
Proof.
  induction l as [|t l IH]; intros l0 Hl; cbn [foldl].
  - by rewrite app_nil_r.
  - rewrite settle_all_step by (apply Hl; set_solver).
    rewrite IH by (intros; apply Hl; set_solver).
    by rewrite <- app_assoc.
Qed.

Lemma settle_all_single h n st f :
  fetches st !! h = Some f ->
  stream_notify h n (set_fetches (<[h := resolved n f]> (fetches st)) st)
  = settle_all [h] n st.
Proof.
  intros Hf. unfold stream_notify, set_fetches, set_currentDocument, settle_all; simpl.
  assert (Hfs : <[h:=resolved n f]> (fetches st)
    = imap (fun k g => if decide (k ∈ [h]) then resolved n g else g) (fetches st)).
  { apply list_eq. intros j. rewrite list_lookup_insert, list_lookup_imap.
    destruct (decide (h = j ∧ h < length (fetches st))) as [[-> Hlt]|Hne].
    - rewrite Hf; simpl. by rewrite decide_True by set_solver.
    - destruct (fetches st !! j) as [g|] eqn:Hg; simpl; [|done].
      rewrite decide_False; [done|]. intros ->%list_elem_of_singleton.
      apply Hne. split; [done|]. by eapply lookup_lt_Some. }
  rewrite Hfs. destruct (innerSubscription (currentDocument st)) as [x|]; simpl.
  - destruct (decide (Some x = Some h)) as [Heq|Hneq].
    + injection Heq as ->. by rewrite decide_True by set_solver.
    + rewrite decide_False; [done|]. intros ->%list_elem_of_singleton. done.
  - done.
Qed.

(** With two units of fuel or more, [settle] on an open subject whose
    observers are leaves is [settle_all]. *)
Lemma settle_spec fuel h n st f :
  fetches st !! h = Some f -> outcome f = None ->
  (forall t, t ∈ observers f -> is_leaf st t) ->
  settle (S (S fuel)) h n st = settle_all (h :: observers f) n st.
Proof.
  intros Hf Ho Hobs. rewrite settle_S, Hf, Ho.
  rewrite (settle_all_single _ _ _ _ Hf).
  by rewrite settle_all_fold.
Qed.

Lemma deliver_spec h n st f :
  fetches st !! h = Some f -> outcome f = None ->
  (forall t, t ∈ observers f -> is_leaf st t) ->
  deliver h n st = settle_all (h :: observers f) n st.
Proof.
  intros Hf Ho Hobs. unfold deliver.
  destruct (fetches st) as [|g fs] eqn:Hfs; [done|]. cbn [length].
  rewrite <- Hfs in *. by apply settle_spec.
Qed.

Lemma deliver_stopped h n st f m :
  fetches st !! h = Some f -> outcome f = Some m -> deliver h n st = st.
Proof. apply settle_stopped. Qed.

(** ** The cache *)

Lemma document_id_nonempty url : document_id url <> EmptyString.
Proof. unfold document_id. destruct url; simpl; done. Qed.

Lemma document_id_id i : i <> EmptyString -> document_id i = i.
Proof. unfold document_id. destruct i; simpl; done. Qed.

Lemma getDocument_hit url st o :
  cache st !! document_id url = Some o -> getDocument url st = (st, o).
Proof. intros H. unfold getDocument. by rewrite H. Qed.

Lemma getDocument_miss url st :
  cache st !! document_id url = None ->
  getDocument url st
  = (mkState (<[document_id url := AsObservable (length (fetches st))]> (cache st))
       (fetches st
        ++ [mkFetch (document_id url) (requestPath (document_id url)) false None []])
       (currentDocument st),
     AsObservable (length (fetches st))).
Proof. intros H. unfold getDocument. by rewrite H. Qed.

Lemma wf_init : wf init.
Proof. split; simpl; intros; try done. Qed.

Lemma wf_getDocument x url st : wf_at x st -> wf_at x (getDocument url st).1.
Proof.
  intros [Hurl Hcache Hcached Hpend Hobs Hfnf Hrun Hwait Hout Hinner Hstream].
  destruct (cache st !! document_id url) as [o|] eqn:Hc.
  { rewrite (getDocument_hit _ _ _ Hc). by split. }
  rewrite (getDocument_miss _ _ Hc).
  split; simpl.
  - intros k f [[_ Hf]|[_ <-]]%lookup_snoc_Some; [by eapply Hurl|].
    split; [done|apply document_id_nonempty].
  - intros i o [[<- <-]|[Hne Hi]]%lookup_insert_Some.
    + eexists _, _. split; [done|]. split.
      * by rewrite lookup_app_r, Nat.sub_diag by lia.
      * done.
    + destruct (Hcache _ _ Hi) as (h & f & -> & Hf & <-).
      exists h, f. split; [done|]. split; [|done]. by apply lookup_app_l_Some.
  - intros k f [[_ Hf]|[-> <-]]%lookup_snoc_Some.
    + destruct (Hcached _ _ Hf) as [Hk|Hk]; [|by right]. left.
      rewrite lookup_insert_ne; [done|]. intros Heq. by rewrite <- Heq, Hc in Hk.
    + left. simpl. by rewrite lookup_insert_eq.
  - intros k f [[_ Hf]|[_ <-]]%lookup_snoc_Some; [by eapply Hpend|done].
  - intros h f t [[_ Hf]|[_ <-]]%lookup_snoc_Some Ht; [|by apply elem_of_nil in Ht].
    destruct (Hobs _ _ _ Hf Ht) as (Ho & Hid & ft & Hft & ?).
    split; [done|]. split; [done|]. exists ft. split; [|done].
    by apply lookup_app_l_Some.
  - intros k f [[_ Hf]|[_ <-]]%lookup_snoc_Some; [by eapply Hfnf|by left].
  - intros k h f Hx [[_ Hf]|[_ <-]]%lookup_snoc_Some; [by eapply Hrun|].
    apply not_elem_of_nil.
  - intros k f [[_ Hf]|[_ <-]]%lookup_snoc_Some; [|done].
    intros Ha Ho. destruct (Hwait _ _ Hf Ha Ho) as [?|(h & fh & Hfh & Hk)]; [by left|].
    right. exists h, fh. split; [|done]. by apply lookup_app_l_Some.
  - intros k f n [[_ Hf]|[_ <-]]%lookup_snoc_Some; [by eapply Hout|done].
  - intros h Hh. destruct (Hinner _ Hh) as (f & Hf & Ho).
    exists f. split; [|done]. by apply lookup_app_l_Some.
  - done.
Qed.

Lemma getDocument_result x url st :
  wf_at x st ->
  exists h fh,
    (getDocument url st).2 = AsObservable h
    /\ fetches (getDocument url st).1 !! h = Some fh
    /\ fetch_id fh = document_id url
    /\ cache (getDocument url st).1 !! document_id url = Some (AsObservable h).
Proof.
  intros Hwf. destruct (cache st !! document_id url) as [o|] eqn:Hc.
  - rewrite (getDocument_hit _ _ _ Hc); simpl.
    destruct (wf_cache _ _ Hwf _ _ Hc) as (h & fh & -> & Hfh & Hid).
    by exists h, fh.
  - rewrite (getDocument_miss _ _ Hc); simpl.
    eexists _, _. split; [done|]. split; [|split].
    + by rewrite lookup_app_r, Nat.sub_diag by lia.
    + done.
    + by rewrite lookup_insert_eq.
Qed.

Lemma getDocument_old url st j g :
  fetches st !! j = Some g -> fetches (getDocument url st).1 !! j = Some g.
Proof.
  intros Hg. unfold getDocument.
  destruct (cache st !! document_id url); simpl; [done|].
  by apply lookup_app_l_Some.
Qed.

Lemma getDocument_stream url st :
  currentDocument (getDocument url st).1 = currentDocument st.
Proof. unfold getDocument. by destruct (cache st !! document_id url). Qed.

(** ** A turn of the transport *)

Lemma mark_answered_lookup k st f j g' :
  fetches st !! k = Some f ->
  fetches (mark_answered k st) !! j = Some g' <->
  exists g, fetches st !! j = Some g /\
    g' = if decide (j = k)
         then mkFetch (fetch_id g) (fetch_url g) true (outcome g) (observers g)
         else g.
Proof.
  intros Hf. unfold mark_answered. rewrite Hf. simpl.
  rewrite list_lookup_insert_Some. split.
  - intros [(<- & <- & _)|[Hne Hg]].
    + exists f. by rewrite decide_True.
    + exists g'. by rewrite decide_False.
  - intros (g & Hg & ->). destruct (decide (j = k)) as [->|Hne].
    + left. rewrite Hf in Hg. injection Hg as <-.
      split; [done|]. split; [done|]. by eapply lookup_lt_Some.
    + right. done.
Qed.

Lemma wf_mark_answered k st f :
  wf st -> fetches st !! k = Some f -> answered f = false ->
  wf_at (Some k) (mark_answered k st).
Proof.
  intros [Hurl Hcache Hcached Hpend Hobs Hfnf Hrun Hwait Hout Hinner Hstream] Hf Ha.
  assert (Hcs : cache (mark_answered k st) = cache st
                /\ currentDocument (mark_answered k st) = currentDocument st).
  { unfold mark_answered. by rewrite Hf. }
  destruct Hcs as [Hc Hs].
  assert (Hfwd : forall j g, fetches st !! j = Some g ->
    fetches (mark_answered k st) !! j
    = Some (if decide (j = k)
            then mkFetch (fetch_id g) (fetch_url g) true (outcome g) (observers g)
            else g)).
  { intros j g Hg. apply (mark_answered_lookup _ _ _ _ _ Hf). eauto. }
  split; rewrite ?Hc, ?Hs.
  - intros j g' (g & Hg & ->)%(mark_answered_lookup _ _ _ _ _ Hf).
    destruct (decide (j = k)); simpl; by eapply Hurl.
  - intros i o Hi. destruct (Hcache _ _ Hi) as (h & g & -> & Hg & <-).
    eexists h, _. split; [done|]. split; [by apply Hfwd|].
    by destruct (decide (h = k)).
  - intros j g' (g & Hg & ->)%(mark_answered_lookup _ _ _ _ _ Hf).
    destruct (decide (j = k)); simpl; by eapply Hcached.
  - intros j g' (g & Hg & ->)%(mark_answered_lookup _ _ _ _ _ Hf).
    destruct (decide (j = k)); simpl; [done|]. by eapply Hpend.
  - intros h g' t (g & Hg & ->)%(mark_answered_lookup _ _ _ _ _ Hf) Ht.
    assert (Ht' : t ∈ observers g) by (by destruct (decide (h = k))).
    destruct (Hobs _ _ _ Hg Ht') as (Ho & Hid & ft & Hft & Hne & Hat & Hot).
    split; [by destruct (decide (h = k))|]. split; [by destruct (decide (h = k))|].
    eexists. split; [by apply Hfwd|]. by destruct (decide (t = k)).
  - intros j g' (g & Hg & ->)%(mark_answered_lookup _ _ _ _ _ Hf).
    destruct (decide (j = k)) as [->|]; simpl; [by right|].
    intros Hid Ho. destruct (Hfnf _ _ Hg Hid Ho) as [?|?]; [by left|done].
  - intros k' h g' [= <-] (g & Hg & ->)%(mark_answered_lookup _ _ _ _ _ Hf) Hin.
    assert (Ht' : k ∈ observers g) by (by destruct (decide (h = k))).
    destruct (Hobs _ _ _ Hg Ht') as (_ & _ & ft & Hft & _ & Hat & _).
    rewrite Hf in Hft. injection Hft as <-. congruence.
  - intros j g' (g & Hg & ->)%(mark_answered_lookup _ _ _ _ _ Hf).
    destruct (decide (j = k)) as [->|]; simpl; [by left|].
    intros Hag Hog. right.
    destruct (Hwait _ _ Hg Hag Hog) as [[=]|(h & fh & Hfh & Hk)].
    eexists h, _. split; [by apply Hfwd|]. by destruct (decide (h = k)).
  - intros j g' n (g & Hg & ->)%(mark_answered_lookup _ _ _ _ _ Hf) Hn.
    apply (Hout _ _ _ Hg). by destruct (decide (j = k)).
  - intros h Hh. destruct (Hinner _ Hh) as (g & Hg & Ho).
    eexists. split; [by apply Hfwd|]. by destruct (decide (h = k)).
  - done.
Qed.

Lemma settle_all_lookup hs n st j g' :
  fetches (settle_all hs n st) !! j = Some g' <->
  exists g, fetches st !! j = Some g /\
    g' = if decide (j ∈ hs) then resolved n g else g.
Proof.
  unfold settle_all; simpl. rewrite list_lookup_imap, fmap_Some.
  split; intros (g & ? & ?); by exists g.
Qed.

(** The pipe of request [k] hands a document to its subject, after
    [getErrorDoc] has evicted the id or with the cache as it is. *)
Lemma wf_settle k f d c' st :
  wf_at (Some k) st ->
  fetches st !! k = Some f -> answered f = true -> outcome f = None ->
  (c' = cache st
   \/ c' = delete (fetch_id f) (cache st) /\ d = fetching_error_document) ->
  wf (settle_all (k :: observers f) (Emit d) (set_cache c' st)).
Proof.
  intros [Hurl Hcache Hcached Hpend Hobs Hfnf Hrun Hwait Hout Hinner Hstream] Hf Ha Ho Hc'.
  set (hs := k :: observers f).
  assert (Hopen : forall j g, j ∈ hs -> fetches st !! j = Some g -> outcome g = None).
  { intros j g [->|Hj]%elem_of_cons Hg; [congruence|].
    destruct (Hobs _ _ _ Hf Hj) as (_ & _ & ft & Hft & _ & _ & Hot). congruence. }
  assert (Hfwd : forall j g, fetches st !! j = Some g ->
    fetches (settle_all hs (Emit d) (set_cache c' st)) !! j
    = Some (if decide (j ∈ hs) then resolved (Emit d) g else g)).
  { intros j g Hg. apply settle_all_lookup. eauto. }
  assert (Hkeep : forall h g t, fetches st !! h = Some g -> t ∈ observers g ->
    h ∉ hs -> t ∉ hs).
  { intros h g t Hg Ht Hh [->|Hin]%elem_of_cons.
    - by eapply Hrun.
    - destruct (Hobs _ _ _ Hg Ht) as (Hog & Hidg & _).
      destruct (Hobs _ _ _ Hf Hin) as (_ & Hidf & _).
      destruct (Hcached _ _ Hg) as [Hcg|?]; [|congruence].
      destruct (Hcached _ _ Hf) as [Hcf|?]; [|congruence].
      rewrite Hidg in Hcg. rewrite Hidf in Hcf.
      apply Hh. assert (h = k) as -> by congruence. set_solver. }
  split.
  - intros j g' (g & Hg & ->)%settle_all_lookup.
    destruct (decide (j ∈ hs)); simpl; by eapply Hurl.
  - intros i o Hi. simpl in Hi.
    assert (Hi' : cache st !! i = Some o).
    { destruct Hc' as [->|[-> _]]; [done|].
      by apply lookup_delete_Some in Hi as [_ ?]. }
    destruct (Hcache _ _ Hi') as (h & g & -> & Hg & <-).
    eexists h, _. split; [done|]. split; [by apply Hfwd|].
    by destruct (decide (h ∈ hs)).
  - intros j g' (g & Hg & ->)%settle_all_lookup. simpl.
    assert (Hid : fetch_id (if decide (j ∈ hs) then resolved (Emit d) g else g)
                  = fetch_id g) by (by destruct (decide (j ∈ hs))).
    rewrite Hid.
    destruct (Hcached _ _ Hg) as [Hcg|Herr].
    + destruct Hc' as [->|[-> ->]]; [by left|].
      destruct (decide (fetch_id g = fetch_id f)) as [Heq|Hne].
      * right. destruct (Hcached _ _ Hf) as [Hcf|?]; [|congruence].
        rewrite Heq in Hcg. assert (j = k) as -> by congruence.
        by rewrite decide_True by set_solver.
      * left. by rewrite lookup_delete_ne.
    + right. rewrite decide_False; [done|].
      intros Hj. specialize (Hopen _ _ Hj Hg). congruence.
  - intros j g' (g & Hg & ->)%settle_all_lookup.
    destruct (decide (j ∈ hs)) as [Hj|Hj]; simpl; [|by eapply Hpend].
    intros Hag. exfalso. apply elem_of_cons in Hj as [->|Hj].
    + simpl in Hg. congruence.
    + destruct (Hobs _ _ _ Hf Hj) as (_ & _ & ft & Hft & _ & Hat & _).
      simpl in Hg. congruence.
  - intros h g' t (g & Hg & ->)%settle_all_lookup Ht.
    destruct (decide (h ∈ hs)) as [?|Hh]; [by apply elem_of_nil in Ht|].
    destruct (Hobs _ _ _ Hg Ht) as (Hog & Hidg & ft & Hft & Hne & Hat & Hot).
    split; [done|]. split; [done|].
    exists ft. split; [|done]. rewrite (Hfwd _ _ Hft).
    rewrite decide_False; [done|]. exact (Hkeep _ _ _ Hg Ht Hh).
  - intros j g' (g & Hg & ->)%settle_all_lookup.
    destruct (decide (j ∈ hs)) as [?|Hj]; simpl; [done|].
    intros Hid Hog. left. destruct (Hfnf _ _ Hg Hid Hog) as [?|[= <-]]; [done|].
    exfalso. apply Hj. set_solver.
  - done.
  - intros j g' (g & Hg & ->)%settle_all_lookup.
    destruct (decide (j ∈ hs)) as [?|Hj]; [intros _ Hog; discriminate Hog|].
    intros Hag Hog. right. simpl in Hg.
    destruct (Hwait _ _ Hg Hag Hog) as [[= <-]|(h & fh & Hfh & Hk)];
      [exfalso; apply Hj; set_solver|].
    exists h, fh. split; [|done]. rewrite (Hfwd _ _ Hfh).
    rewrite decide_False; [done|]. intros [->|Hin]%elem_of_cons.
    + rewrite Hf in Hfh. injection Hfh as <-. apply Hj. set_solver.
    + destruct (Hobs _ _ _ Hf Hin) as (_ & _ & ft & Hft & Hne & _).
      destruct (Hobs _ _ _ Hfh Hk) as (_ & Hidh & _).
      rewrite Hfh in Hft. injection Hft as <-. done.
  - intros j g' n (g & Hg & ->)%settle_all_lookup.
    destruct (decide (j ∈ hs)); simpl; [intros [= <-]; eauto|]. by eapply Hout.
  - intros h Hh.
    assert (Hh' : innerSubscription (currentDocument st) = Some h /\ h ∉ hs).
    { unfold settle_all in Hh; simpl in Hh.
      destruct (innerSubscription (currentDocument st)) as [x|] eqn:Hx; [|congruence].
      destruct (decide (x ∈ hs)) as [?|Hxn]; simpl in Hh; [done|].
      rewrite Hx in Hh. by injection Hh as ->. }
    destruct Hh' as [Hh' Hn]. destruct (Hinner _ Hh') as (g & Hg & Hog).
    exists g. split; [|done]. rewrite (Hfwd _ _ Hg). by rewrite decide_False.
  - unfold settle_all; simpl.
    destruct (innerSubscription (currentDocument st)) as [x|]; [|done].
    by destruct (decide (x ∈ hs)).
Qed.

(** The pipe of request [k] subscribes to the open subject [h] of the
    not-found document. *)
Lemma wf_observe k h fh fk st :
  wf_at (Some k) st ->
  fetches st !! h = Some fh -> outcome fh = None ->
  fetch_id fh = FILE_NOT_FOUND_ID ->
  fetches st !! k = Some fk -> fetch_id fk <> FILE_NOT_FOUND_ID ->
  answered fk = true -> outcome fk = None ->
  wf (set_fetches
        (<[h := mkFetch (fetch_id fh) (fetch_url fh) (answered fh) None
                  (observers fh ++ [k])]> (fetches st)) st).
Proof.
  intros [Hurl Hcache Hcached Hpend Hobs Hfnf Hrun Hwait Hout Hinner Hstream]
    Hfh Hoh Hidh Hfk Hidk Hak Hok.
  set (fh' := mkFetch (fetch_id fh) (fetch_url fh) (answered fh) None
                (observers fh ++ [k])).
  assert (Hhk : h <> k) by (intros ->; congruence).
  assert (Hfwd : forall j g, fetches st !! j = Some g ->
    <[h := fh']> (fetches st) !! j = Some (if decide (j = h) then fh' else g)).
  { intros j g Hg. destruct (decide (j = h)) as [->|Hne].
    - apply list_lookup_insert_eq. by eapply lookup_lt_Some.
    - by rewrite list_lookup_insert_ne. }
  assert (Hother : forall t ft, fetches st !! t = Some ft ->
    fetch_id ft <> FILE_NOT_FOUND_ID -> <[h := fh']> (fetches st) !! t = Some ft).
  { intros t ft Hft Hne. rewrite (Hfwd _ _ Hft).
    rewrite decide_False; [done|]. intros ->. congruence. }
  split; simpl.
  - intros j g' [(<- & <- & _)|[Hne Hg]]%list_lookup_insert_Some;
      [exact (Hurl _ _ Hfh)|by eapply Hurl].
  - intros i o Hi. destruct (Hcache _ _ Hi) as (h0 & g & -> & Hg & <-).
    eexists h0, _. split; [done|]. split; [by apply Hfwd|].
    destruct (decide (h0 = h)) as [->|]; [simpl; congruence|done].
  - intros j g' [(<- & <- & _)|[Hne Hg]]%list_lookup_insert_Some;
      [|by eapply Hcached].
    simpl. destruct (Hcached _ _ Hfh) as [?|?]; [by left|congruence].
  - intros j g' [(<- & <- & _)|[Hne Hg]]%list_lookup_insert_Some;
      [done|by eapply Hpend].
  - intros j g' t [(<- & <- & _)|[Hne Hg]]%list_lookup_insert_Some Ht.
    + simpl in Ht. split; [done|]. split; [done|].
      apply elem_of_app in Ht as [Ht| ->%list_elem_of_singleton].
      * destruct (Hobs _ _ _ Hfh Ht) as (_ & _ & ft & Hft & Hne & Hat & Hot).
        exists ft. split; [by apply Hother|done].
      * exists fk. split; [by apply Hother|done].
    + destruct (Hobs _ _ _ Hg Ht) as (Hog & Hidg & ft & Hft & Hne' & Hat & Hot).
      split; [done|]. split; [done|].
      exists ft. split; [by apply Hother|done].
  - intros j g' [(<- & <- & _)|[Hne Hg]]%list_lookup_insert_Some; simpl.
    + intros _ _. left. destruct (Hfnf _ _ Hfh Hidh Hoh) as [?|[= ?]]; done.
    + intros Hid Hog. left. destruct (Hfnf _ _ Hg Hid Hog) as [?|[= <-]]; [done|].
      congruence.
  - done.
  - intros j g' [(<- & <- & _)|[Hne Hg]]%list_lookup_insert_Some; simpl.
    + intros Hah _. destruct (Hfnf _ _ Hfh Hidh Hoh) as [?|[= ?]]; congruence.
    + intros Hag Hog. right.
      destruct (Hwait _ _ Hg Hag Hog) as [[= <-]|(h0 & fh0 & Hfh0 & Hk)].
      * eexists h, _. split; [by apply (Hfwd _ _ Hfh)|].
        rewrite decide_True by done. simpl. set_solver.
      * eexists h0, _. split; [by apply (Hfwd _ _ Hfh0)|].
        destruct (decide (h0 = h)) as [->|]; [|done].
        rewrite Hfh in Hfh0. injection Hfh0 as <-. simpl. set_solver.
  - intros j g' n [(<- & <- & _)|[Hne Hg]]%list_lookup_insert_Some;
      [done|by eapply Hout].
  - intros x Hx. destruct (Hinner _ Hx) as (g & Hg & Hog).
    eexists. split; [by apply Hfwd|]. by destruct (decide (x = h)).
  - done.
Qed.

Lemma wf_leaf x st h f t :
  wf_at x st -> fetches st !! h = Some f -> t ∈ observers f -> is_leaf st t.
Proof.
  intros Hwf Hf Ht.
  destruct (wf_observers _ _ Hwf _ _ _ Hf Ht) as (_ & _ & ft & Hft & Hne & _ & Hot).
  exists ft. split; [done|]. split; [done|].
  destruct (observers ft) as [|t' l] eqn:Hl; [done|].
  destruct (wf_observers _ _ Hwf t ft t' Hft) as (_ & Hid & _); [|done].
  rewrite Hl. set_solver.
Qed.

Lemma wf_no_observers x st k f :
  wf_at x st -> fetches st !! k = Some f ->
  fetch_id f <> FILE_NOT_FOUND_ID -> observers f = [].
Proof.
  intros Hwf Hf Hne. destruct (observers f) as [|t l] eqn:Hl; [done|].
  destruct (wf_observers _ _ Hwf k f t Hf) as (_ & Hid & _); [|done].
  rewrite Hl. set_solver.
Qed.

Lemma set_cache_id st : set_cache (cache st) st = st.
Proof. by destruct st. Qed.

Lemma mark_answered_self k st f :
  fetches st !! k = Some f ->
  fetches (mark_answered k st) !! k
  = Some (mkFetch (fetch_id f) (fetch_url f) true (outcome f) (observers f)).
Proof.
  intros Hf. apply (mark_answered_lookup _ _ _ _ _ Hf).
  exists f. by rewrite decide_True.
Qed.

Lemma mark_answered_cache k st : cache (mark_answered k st) = cache st.
Proof. unfold mark_answered. by destruct (fetches st !! k). Qed.

Lemma mark_answered_stream k st :
  currentDocument (mark_answered k st) = currentDocument st.
Proof. unfold mark_answered. by destruct (fetches st !! k). Qed.

Lemma mark_answered_length k st :
  length (fetches (mark_answered k st)) = length (fetches st).
Proof.
  unfold mark_answered. destruct (fetches st !! k); [|done].
  simpl. by rewrite length_insert.
Qed.

(** What the subject of the running pipe does with a document. *)
Lemma deliver_running k f d c' st :
  wf_at (Some k) st ->
  fetches st !! k = Some f -> answered f = true -> outcome f = None ->
  (c' = cache st
   \/ c' = delete (fetch_id f) (cache st) /\ d = fetching_error_document) ->
  deliver k (Emit d) (set_cache c' st)
  = settle_all (k :: observers f) (Emit d) (set_cache c' st)
  /\ wf (settle_all (k :: observers f) (Emit d) (set_cache c' st)).
Proof.
  intros Hwf Hf Ha Ho Hc'. split; [|by eapply wf_settle].
  apply deliver_spec; [done|done|].
  intros t Ht. destruct (wf_leaf _ _ _ _ _ Hwf Hf Ht) as (ft & ? & ? & ?).
  by exists ft.
Qed.

Section Respond.

Variables (k : nat) (resp : HttpResponse) (st : State) (f : Fetch).
Hypothesis Hwf : wf st.
Hypothesis Hf : fetches st !! k = Some f.
Hypothesis Ha : answered f = false.

Let st1 := mark_answered k st.

Lemma running_wf : wf_at (Some k) st1.
Proof. by eapply wf_mark_answered. Qed.

Lemma running_open : outcome f = None.
Proof. by eapply wf_pending. Qed.

Lemma running_deliver d c' :
  (c' = cache st1
   \/ c' = delete (fetch_id f) (cache st1) /\ d = fetching_error_document) ->
  deliver k (Emit d) (set_cache c' st1)
  = settle_all (k :: observers f) (Emit d) (set_cache c' st1).
Proof.
  intros Hc'.
  apply (deliver_running k
           (mkFetch (fetch_id f) (fetch_url f) true (outcome f) (observers f))
           d c' st1 running_wf).
  - by apply mark_answered_self.
  - done.
  - apply running_open.
  - done.
Qed.

Lemma respond_success d :
  pipe (fetch_id f) resp = Emit d ->
  respond k resp st = settle_all (k :: observers f) (Emit d) st1.
Proof.
  intros Hp. unfold respond. rewrite Hf, Ha, Hp. fold st1.
  rewrite <- (set_cache_id st1). apply running_deliver. by left.
Qed.

Lemma respond_generic e :
  pipe (fetch_id f) resp = Raise e -> status_is_404 e = false ->
  respond k resp st
  = settle_all (k :: observers f) (Emit fetching_error_document)
      (set_cache (delete (fetch_id f) (cache st)) st1).
Proof.
  intros Hp He. unfold respond, recover, getErrorDoc, subscribe.
  rewrite Hf, Ha, Hp, He. fold st1.
  rewrite <- (mark_answered_cache k st). fold st1.
  apply running_deliver. by right.
Qed.

Lemma respond_not_found_itself e :
  pipe (fetch_id f) resp = Raise e -> status_is_404 e = true ->
  fetch_id f = FILE_NOT_FOUND_ID ->
  respond k resp st = settle_all (k :: observers f) (Emit not_found_document) st1.
Proof.
  intros Hp He Hid. unfold respond, recover, getFileNotFoundDoc, subscribe.
  rewrite Hf, Ha, Hp, He, Hid. simpl. fold st1.
  rewrite <- (set_cache_id st1). apply running_deliver. by left.
Qed.

Lemma respond_not_found e :
  pipe (fetch_id f) resp = Raise e -> status_is_404 e = true ->
  fetch_id f <> FILE_NOT_FOUND_ID ->
  respond k resp st
  = subscribe (getDocument FILE_NOT_FOUND_ID st1).2 k
      (getDocument FILE_NOT_FOUND_ID st1).1.
Proof.
  intros Hp He Hid. unfold respond, recover, getFileNotFoundDoc.
  rewrite Hf, Ha, Hp, He. fold st1.
  apply String.eqb_neq in Hid. rewrite Hid. simpl.
  by destruct (getDocument FILE_NOT_FOUND_ID st1).
Qed.

(** After a 404 for another id the pipe subscribes to the cached subject
    of the not-found document, fetching it if the cache has none. *)
Lemma respond_not_found_spec e :
  pipe (fetch_id f) resp = Raise e -> status_is_404 e = true ->
  fetch_id f <> FILE_NOT_FOUND_ID ->
  let st2 := (getDocument FILE_NOT_FOUND_ID st1).1 in
  exists h fh,
    (getDocument FILE_NOT_FOUND_ID st1).2 = AsObservable h
    /\ cache st2 !! FILE_NOT_FOUND_ID = Some (AsObservable h)
    /\ fetches st2 !! h = Some fh
    /\ fetch_id fh = FILE_NOT_FOUND_ID
    /\ respond k resp st
       = match outcome fh with
         | Some n => settle_all [k] n st2
         | None =>
             set_fetches
               (<[h := mkFetch (fetch_id fh) (fetch_url fh) (answered fh) None
                         (observers fh ++ [k])]> (fetches st2)) st2
         end
    /\ wf (respond k resp st).
Proof.
  intros Hp He Hid st2.
  assert (Hwf2 : wf_at (Some k) st2) by (apply wf_getDocument, running_wf).
  destruct (getDocument_result _ FILE_NOT_FOUND_ID _ running_wf)
    as (h & fh & Ho & Hfh & Hidh & Hch).
  fold st2 in Hfh, Hch.
  set (f1 := mkFetch (fetch_id f) (fetch_url f) true (outcome f) (observers f)).
  assert (Hk2 : fetches st2 !! k = Some f1).
  { apply getDocument_old. by apply mark_answered_self. }
  assert (Hobs1 : observers f1 = []) by (by eapply wf_no_observers).
  assert (Heq : respond k resp st
    = match outcome fh with
      | Some n => settle_all [k] n st2
      | None =>
          set_fetches
            (<[h := mkFetch (fetch_id fh) (fetch_url fh) (answered fh) None
                      (observers fh ++ [k])]> (fetches st2)) st2
      end).
  { rewrite (respond_not_found _ Hp He Hid), Ho. fold st2.
    unfold subscribe. rewrite Hfh. destruct (outcome fh) as [n|] eqn:Hn; [|done].
    destruct (wf_outcome _ _ Hwf2 _ _ _ Hfh Hn) as [d ->].
    rewrite <- (set_cache_id st2).
    destruct (deliver_running k f1 d (cache st2) st2 Hwf2 Hk2 eq_refl running_open
                (or_introl eq_refl)) as [Hd _].
    by rewrite Hobs1 in Hd. }
  exists h, fh. do 4 (split; [done|]). split; [done|].
  rewrite Heq. destruct (outcome fh) as [n|] eqn:Hn.
  - destruct (wf_outcome _ _ Hwf2 _ _ _ Hfh Hn) as [d ->].
    rewrite <- (set_cache_id st2).
    destruct (deliver_running k f1 d (cache st2) st2 Hwf2 Hk2 eq_refl running_open
                (or_introl eq_refl)) as [_ Hw].
    by rewrite Hobs1 in Hw.
  - eapply (wf_observe k h fh f1); try done. apply running_open.
Qed.

End Respond.

Lemma pipe_cases i resp :
  (exists body c, resp = Ok body /\ compile body = Returns c
                  /\ pipe i resp = Emit (mkDoc i c))
  \/ (exists body e, resp = Ok body /\ compile body = Throws e
                     /\ pipe i resp = Raise e)
  \/ (exists status, resp = Failure status
                     /\ pipe i resp = Raise (HttpErrorResponse status)).
Proof.
  destruct resp as [body|status]; [|right; right; by eexists].
  unfold pipe, to_document; simpl.
  destruct (compile body) as [c|e] eqn:Hc; [left|right; left]; by eexists _, _.
Qed.

Lemma wf_respond k resp st : wf st -> wf (respond k resp st).
Proof.
  intros Hwf. destruct (fetches st !! k) as [f|] eqn:Hf;
    [|by unfold respond; rewrite Hf].
  destruct (answered f) eqn:Ha; [by unfold respond; rewrite Hf, Ha|].
  pose proof (running_wf k st f Hwf Hf Ha) as Hwf1.
  pose proof (running_open k st f Hwf Hf Ha) as Hopen.
  pose proof (mark_answered_self k st f Hf) as Hk1.
  destruct (pipe (fetch_id f) resp) as [d|e] eqn:Hp.
  - rewrite (respond_success k resp st f Hwf Hf Ha d Hp).
    rewrite <- (set_cache_id (mark_answered k st)).
    by eapply (wf_settle k _ d _ _ Hwf1 Hk1); [| |left].
  - destruct (status_is_404 e) eqn:He.
    + destruct (decide (fetch_id f = FILE_NOT_FOUND_ID)) as [Hid|Hid].
      * rewrite (respond_not_found_itself k resp st f Hwf Hf Ha e Hp He Hid).
        rewrite <- (set_cache_id (mark_answered k st)).
        by eapply (wf_settle k _ _ _ _ Hwf1 Hk1); [| |left].
      * by destruct (respond_not_found_spec k resp st f Hwf Hf Ha e Hp He Hid)
          as (h & fh & _ & _ & _ & _ & _ & Hw).
    + rewrite (respond_generic k resp st f Hwf Hf Ha e Hp He).
      rewrite <- (mark_answered_cache k st).
      by eapply (wf_settle k _ _ _ _ Hwf1 Hk1); [| |right].
Qed.


(** What a turn of the transport does to the subjects, to
    [currentDocument] and to the cache: the subjects in [hs], open until
    then, latch one document; an entry leaves the cache only when the fetch
    it stands for ends in [getErrorDoc]; at most one request is issued. *)
Lemma respond_effect k resp st :
  wf st ->
  let st' := respond k resp st in
  exists hs d,
    currentDocument st' = stream_after hs (Emit d) (currentDocument st)
    /\ (forall j g, fetches st !! j = Some g ->
          exists g', fetches st' !! j = Some g'
            /\ fetch_id g' = fetch_id g /\ fetch_url g' = fetch_url g
            /\ outcome g' = if decide (j ∈ hs) then Some (Emit d) else outcome g)
    /\ (forall j g, j ∈ hs -> fetches st !! j = Some g -> outcome g = None)
    /\ (forall i o, cache st !! i = Some o ->
          cache st' !! i = Some o
          \/ exists f, fetches st !! k = Some f /\ answered f = false
                       /\ fetch_id f = i /\ o = AsObservable k
                       /\ generic_failure i resp).
Proof.
  intros Hwf st'.
  assert (Hnop : st' = st -> exists hs d,
    currentDocument st' = stream_after hs (Emit d) (currentDocument st)
    /\ (forall j g, fetches st !! j = Some g ->
          exists g', fetches st' !! j = Some g'
            /\ fetch_id g' = fetch_id g /\ fetch_url g' = fetch_url g
            /\ outcome g' = if decide (j ∈ hs) then Some (Emit d) else outcome g)
    /\ (forall j g, j ∈ hs -> fetches st !! j = Some g -> outcome g = None)
    /\ (forall i o, cache st !! i = Some o ->
          cache st' !! i = Some o
          \/ exists f, fetches st !! k = Some f /\ answered f = false
                       /\ fetch_id f = i /\ o = AsObservable k
                       /\ generic_failure i resp)).
  { intros ->. exists [], not_found_document. split; [|split; [|split]].
    - unfold stream_after. by destruct (innerSubscription (currentDocument st)).
    - intros j g Hg. exists g. by rewrite decide_False by apply not_elem_of_nil.
    - intros j g Hj. by apply elem_of_nil in Hj.
    - by left. }
  destruct (fetches st !! k) as [f|] eqn:Hf;
    [|by apply Hnop; unfold st', respond; rewrite Hf].
  destruct (answered f) eqn:Ha;
    [by apply Hnop; unfold st', respond; rewrite Hf, Ha|].
  clear Hnop.
  pose proof (running_wf k st f Hwf Hf Ha) as Hwf1.
  pose proof (running_open k st f Hwf Hf Ha) as Hopen.
  assert (Hmark : forall j g, fetches st !! j = Some g ->
    exists g1, fetches (mark_answered k st) !! j = Some g1
      /\ fetch_id g1 = fetch_id g /\ fetch_url g1 = fetch_url g
      /\ outcome g1 = outcome g).
  { intros j g Hg. eexists. split.
    - apply (mark_answered_lookup _ _ _ _ _ Hf). by exists g.
    - by destruct (decide (j = k)). }
  assert (Hsettle : forall d c', st' = settle_all (k :: observers f) (Emit d)
                                     (set_cache c' (mark_answered k st)) ->
    currentDocument st' = stream_after (k :: observers f) (Emit d) (currentDocument st)
    /\ (forall j g, fetches st !! j = Some g ->
          exists g', fetches st' !! j = Some g'
            /\ fetch_id g' = fetch_id g /\ fetch_url g' = fetch_url g
            /\ outcome g' = if decide (j ∈ k :: observers f)
                            then Some (Emit d) else outcome g)
    /\ (forall j g, j ∈ k :: observers f -> fetches st !! j = Some g ->
          outcome g = None)).
  { intros d c' ->. split; [|split].
    - unfold settle_all, stream_after; simpl. by rewrite mark_answered_stream.
    - intros j g Hg. destruct (Hmark _ _ Hg) as (g1 & Hg1 & Hid & Hu & Ho).
      eexists. split; [apply settle_all_lookup; by exists g1|].
      by destruct (decide (j ∈ k :: observers f)).
    - intros j g [->|Hj]%elem_of_cons Hg; [congruence|].
      destruct (wf_observers _ _ Hwf _ _ _ Hf Hj) as (_ & _ & ft & Hft & _ & _ & ?).
      congruence. }
  destruct (pipe (fetch_id f) resp) as [d|e] eqn:Hp.
  - pose proof (respond_success k resp st f Hwf Hf Ha d Hp) as Heq.
    rewrite <- (set_cache_id (mark_answered k st)) in Heq.
    destruct (Hsettle _ _ Heq) as (H1 & H2 & H3).
    exists (k :: observers f), d. do 3 (split; [done|]).
    intros i o Hi. left. fold st' in Heq. rewrite Heq. simpl.
    by rewrite mark_answered_cache.
  - destruct (status_is_404 e) eqn:He.
    + destruct (decide (fetch_id f = FILE_NOT_FOUND_ID)) as [Hid|Hid].
      * pose proof (respond_not_found_itself k resp st f Hwf Hf Ha e Hp He Hid) as Heq.
        rewrite <- (set_cache_id (mark_answered k st)) in Heq.
        destruct (Hsettle _ _ Heq) as (H1 & H2 & H3).
        exists (k :: observers f), not_found_document. do 3 (split; [done|]).
        intros i o Hi. left. fold st' in Heq. rewrite Heq. simpl.
        by rewrite mark_answered_cache.
      * destruct (respond_not_found_spec k resp st f Hwf Hf Ha e Hp He Hid)
          as (h & fh & _ & Hch & Hfh & Hidh & Heq & _).
        fold st' in Heq.
        set (st2 := (getDocument FILE_NOT_FOUND_ID (mark_answered k st)).1) in *.
        assert (Hwf2 : wf_at (Some k) st2) by by apply wf_getDocument.
        assert (Hold : forall j g, fetches st !! j = Some g ->
          exists g2, fetches st2 !! j = Some g2
            /\ fetch_id g2 = fetch_id g /\ fetch_url g2 = fetch_url g
            /\ outcome g2 = outcome g).
        { intros j g Hg. destruct (Hmark _ _ Hg) as (g1 & Hg1 & ?).
          exists g1. split; [by apply getDocument_old|done]. }
        assert (Hs2 : currentDocument st2 = currentDocument st).
        { unfold st2. by rewrite getDocument_stream, mark_answered_stream. }
        assert (Hc2 : forall i o, cache st !! i = Some o -> cache st2 !! i = Some o).
        { intros i o Hi. unfold st2, getDocument.
          destruct (cache (mark_answered k st) !! document_id FILE_NOT_FOUND_ID)
            eqn:Hc; simpl.
          - by rewrite mark_answered_cache.
          - rewrite mark_answered_cache in *.
            rewrite lookup_insert_ne; [done|]. congruence. }
        destruct (outcome fh) as [n|] eqn:Hn.
        -- destruct (wf_outcome _ _ Hwf2 _ _ _ Hfh Hn) as [d ->].
           exists [k], d. split; [|split; [|split]].
           ++ rewrite Heq. unfold settle_all, stream_after; simpl. by rewrite Hs2.
           ++ intros j g Hg. destruct (Hold _ _ Hg) as (g2 & Hg2 & Hi2 & Hu2 & Ho2).
              eexists. split; [rewrite Heq; apply settle_all_lookup; by exists g2|].
              by destruct (decide (j ∈ [k])).
           ++ intros j g ->%list_elem_of_singleton Hg. congruence.
           ++ intros i o Hi. left. rewrite Heq. simpl. by apply Hc2.
        -- exists [], not_found_document. split; [|split; [|split]].
           ++ rewrite Heq. simpl. rewrite Hs2. unfold stream_after.
              by destruct (innerSubscription (currentDocument st)).
           ++ intros j g Hg. destruct (Hold _ _ Hg) as (g2 & Hg2 & Hi2 & Hu2 & Ho2).
              rewrite decide_False by apply not_elem_of_nil.
              rewrite Heq. simpl. destruct (decide (j = h)) as [->|Hne].
              ** eexists. split; [apply list_lookup_insert_eq; by eapply lookup_lt_Some|].
                 rewrite Hfh in Hg2. injection Hg2 as <-. simpl.
                 split; [done|]. split; [done|]. congruence.
              ** exists g2. by rewrite list_lookup_insert_ne.
           ++ intros j g Hj. by apply elem_of_nil in Hj.
           ++ intros i o Hi. left. rewrite Heq. simpl. by apply Hc2.
    + pose proof (respond_generic k resp st f Hwf Hf Ha e Hp He) as Heq.
      rewrite <- (mark_answered_cache k st) in Heq.
      destruct (Hsettle _ _ Heq) as (H1 & H2 & H3).
      exists (k :: observers f), fetching_error_document. do 3 (split; [done|]).
      intros i o Hi. fold st' in Heq. rewrite Heq. simpl.
      rewrite mark_answered_cache.
      destruct (decide (fetch_id f = i)) as [<-|Hne].
      * right. exists f. do 3 (split; [done|]). split; [|by exists e].
        destruct (wf_cached _ _ Hwf _ _ Hf) as [?|?]; congruence.
      * left. by rewrite lookup_delete_ne.
Qed.

(** ** A turn of the location *)

Lemma wf_set_currentDocument s' st :
  wf st -> errored s' = None ->
  (forall h, innerSubscription s' = Some h ->
     exists f, fetches st !! h = Some f /\ outcome f = None) ->
  wf (set_currentDocument s' st).
Proof.
  intros [Hurl Hcache Hcached Hpend Hobs Hfnf Hrun Hwait Hout Hinner Hstream] He Hi.
  by split.
Qed.

(** [navigate] spelt out on a well-formed state. *)
Lemma navigate_spec path st :
  wf st ->
  let st0 := set_currentDocument
               (mkSwitchMap None (delivered (currentDocument st)) None) st in
  let st1 := (getDocument path st0).1 in
  exists h fh,
    (getDocument path st0).2 = AsObservable h
    /\ fetches st1 !! h = Some fh
    /\ fetch_id fh = document_id path
    /\ cache st1 !! document_id path = Some (AsObservable h)
    /\ navigate path st
       = set_currentDocument
           (match outcome fh with
            | Some n => inner_notify n (currentDocument st1)
            | None => mkSwitchMap (Some h) (delivered (currentDocument st)) None
            end) st1.
Proof.
  intros Hwf st0 st1.
  assert (Hwf0 : wf st0).
  { apply wf_set_currentDocument; [done|done|]. simpl. by intros h [=]. }
  destruct (getDocument_result _ path _ Hwf0) as (h & fh & Ho & Hfh & Hid & Hc).
  exists h, fh. do 4 (split; [done|]).
  pose proof (getDocument_stream path st0) as Hs. fold st1 in Hs.
  unfold navigate. rewrite (wf_stream _ _ Hwf). fold st0.
  subst st1. destruct (getDocument path st0) as [st1' o]. simpl in *. subst o.
  rewrite Hfh. destruct (outcome fh); [done|]. by rewrite Hs.
Qed.

Lemma wf_navigate path st : wf st -> wf (navigate path st).
Proof.
  intros Hwf.
  destruct (navigate_spec path st Hwf) as (h & fh & _ & Hfh & _ & _ & ->).
  set (st0 := set_currentDocument
                (mkSwitchMap None (delivered (currentDocument st)) None) st) in *.
  assert (Hwf0 : wf st0).
  { apply wf_set_currentDocument; [done|done|]. simpl. by intros ? [=]. }
  assert (Hwf1 : wf (getDocument path st0).1) by by apply wf_getDocument.
  apply wf_set_currentDocument; [done|..].
  - destruct (outcome fh) as [n|] eqn:Hn; [|done].
    destruct (wf_outcome _ _ Hwf1 _ _ _ Hfh Hn) as [d ->]. simpl.
    apply (wf_stream _ _ Hwf1).
  - intros x. destruct (outcome fh) as [n|] eqn:Hn.
    + by destruct n.
    + simpl. intros [= <-]. by exists fh.
Qed.

(** ** Every state the service reaches is well formed *)

Lemma wf_step st ev : wf st -> wf (step st ev).
Proof. destruct ev; simpl; [apply wf_navigate|apply wf_respond]. Qed.

Lemma wf_run evs : forall st, wf st -> wf (run evs st).
Proof.
  induction evs as [|ev evs IH]; intros st Hwf; simpl; [done|].
  apply IH. by apply wf_step.
Qed.

Lemma wf_reachable evs : wf (run evs init).
Proof. apply wf_run, wf_init. Qed.

(** ** What lasts *)

Lemma getDocument_cache_old url st i o :
  cache st !! i = Some o -> cache (getDocument url st).1 !! i = Some o.
Proof.
  intros Hi. unfold getDocument.
  destruct (cache st !! document_id url) eqn:Hc; simpl; [done|].
  rewrite lookup_insert_ne; [done|]. congruence.
Qed.

Lemma navigate_effect path st :
  wf st ->
  (forall j g, fetches st !! j = Some g -> fetches (navigate path st) !! j = Some g)
  /\ (forall i o, cache st !! i = Some o -> cache (navigate path st) !! i = Some o).
Proof.
  intros Hwf. destruct (navigate_spec path st Hwf) as (h & fh & _ & _ & _ & _ & ->).
  split.
  - intros j g Hg. simpl. by apply getDocument_old.
  - intros i o Hi. simpl. by apply getDocument_cache_old.
Qed.

(** A subject that has latched a value keeps it. *)
Lemma outcome_step st ev k f n :
  wf st -> fetches st !! k = Some f -> outcome f = Some n ->
  exists f', fetches (step st ev) !! k = Some f'
    /\ fetch_id f' = fetch_id f /\ outcome f' = Some n.
Proof.
  intros Hwf Hf Hn. destruct ev as [path|j resp]; simpl.
  - exists f. split; [|done]. by apply (navigate_effect path st Hwf).
  - destruct (respond_effect j resp st Hwf) as (hs & d & _ & Hft & Hopen & _).
    destruct (Hft _ _ Hf) as (f' & Hf' & Hid & _ & Ho).
    exists f'. split; [done|]. split; [done|].
    rewrite Ho. destruct (decide (k ∈ hs)) as [Hk|]; [|done].
    specialize (Hopen _ _ Hk Hf). congruence.
Qed.

Lemma outcome_run evs : forall st k f n,
  wf st -> fetches st !! k = Some f -> outcome f = Some n ->
  exists f', fetches (run evs st) !! k = Some f'
    /\ fetch_id f' = fetch_id f /\ outcome f' = Some n.
Proof.
  induction evs as [|ev evs IH]; intros st k f n Hwf Hf Hn; simpl.
  - by exists f.
  - destruct (outcome_step st ev k f n Hwf Hf Hn) as (f1 & Hf1 & Hid1 & Hn1).
    destruct (IH _ _ _ _ (wf_step _ ev Hwf) Hf1 Hn1) as (f' & Hf' & Hid' & Hn').
    exists f'. split; [done|]. split; [congruence|done].
Qed.

(** The entry of a subject that has latched a value stays in the cache:
    only the pipe of an open subject evicts. *)
Lemma cached_step st ev k f n :
  wf st -> fetches st !! k = Some f -> outcome f = Some n ->
  cache st !! fetch_id f = Some (AsObservable k) ->
  cache (step st ev) !! fetch_id f = Some (AsObservable k).
Proof.
  intros Hwf Hf Hn Hc. destruct ev as [path|j resp]; simpl.
  - by apply (navigate_effect path st Hwf).
  - destruct (respond_effect j resp st Hwf) as (hs & d & _ & _ & _ & Hcache).
    destruct (Hcache _ _ Hc) as [?|(f0 & Hf0 & Ha0 & _ & [= <-] & _)]; [done|].
    rewrite Hf in Hf0. injection Hf0 as <-.
    pose proof (wf_pending _ _ Hwf _ _ Hf Ha0). congruence.
Qed.

Lemma cached_run evs : forall st k f n,
  wf st -> fetches st !! k = Some f -> outcome f = Some n ->
  cache st !! fetch_id f = Some (AsObservable k) ->
  cache (run evs st) !! fetch_id f = Some (AsObservable k).
Proof.
  induction evs as [|ev evs IH]; intros st k f n Hwf Hf Hn Hc; simpl; [done|].
  destruct (outcome_step st ev k f n Hwf Hf Hn) as (f1 & Hf1 & Hid1 & Hn1).
  rewrite <- Hid1. eapply IH; [by apply wf_step|done|done|].
  rewrite Hid1. by eapply cached_step.
Qed.

Lemma settle_all_self hs n st k f :
  fetches st !! k = Some f -> k ∈ hs ->
  fetches (settle_all hs n st) !! k = Some (resolved n f).
Proof.
  intros Hf Hk. apply settle_all_lookup. exists f. by rewrite decide_True.
Qed.

Lemma wf_id_nonempty x st k f :
  wf_at x st -> fetches st !! k = Some f -> fetch_id f <> EmptyString.
Proof. intros Hwf Hf. by destruct (wf_url _ _ Hwf _ _ Hf). Qed.

Lemma open_cached x st k f :
  wf_at x st -> fetches st !! k = Some f -> outcome f = None ->
  cache st !! fetch_id f = Some (AsObservable k).
Proof.
  intros Hwf Hf Ho. destruct (wf_cached _ _ Hwf _ _ Hf); [done|congruence].
Qed.

(** ** The pipe *)

Lemma check_data_passes d : check_data d = Returns tt.
Proof. reflexivity. Qed.

Lemma pipe_ok i body c :
  compile body = Returns c -> pipe i (Ok body) = Emit (mkDoc i c).
Proof. intros Hc. unfold pipe, to_document; simpl. by rewrite Hc. Qed.

Lemma pipe_failure i status :
  pipe i (Failure status) = Raise (HttpErrorResponse status).
Proof. reflexivity. Qed.

Lemma respond_ok k body c st f :
  wf st -> fetches st !! k = Some f -> answered f = false ->
  compile body = Returns c ->
  let st' := respond k (Ok body) st in
  fetches st' !! k
  = Some (mkFetch (fetch_id f) (fetch_url f) true
            (Some (Emit (mkDoc (fetch_id f) c))) [])
  /\ cache st' = cache st
  /\ length (fetches st') = length (fetches st).
Proof.
  intros Hwf Hf Ha Hc st'.
  pose proof (respond_success k (Ok body) st f Hwf Hf Ha _ (pipe_ok _ _ _ Hc)) as Heq.
  fold st' in Heq. rewrite Heq. split; [|split].
  - rewrite (settle_all_self _ _ _ k _ (mark_answered_self k st f Hf)); [done|].
    set_solver.
  - simpl. apply mark_answered_cache.
  - unfold settle_all; simpl. by rewrite length_imap, mark_answered_length.
Qed.

Lemma transport_calls_mark_answered k st :
  transport_calls (mark_answered k st) = transport_calls st.
Proof.
  unfold transport_calls, mark_answered.
  destruct (fetches st !! k) as [f|] eqn:Hf; [|done]. simpl.
  apply list_eq. intros j. rewrite !list_lookup_fmap, list_lookup_insert.
  destruct (decide (k = j ∧ k < length (fetches st))) as [[<- _]|_]; [|done].
  by rewrite Hf.
Qed.

Lemma transport_calls_set_cache c st :
  transport_calls (set_cache c st) = transport_calls st.
Proof. reflexivity. Qed.

Lemma transport_calls_settle_all hs n st :
  transport_calls (settle_all hs n st) = transport_calls st.
Proof.
  unfold transport_calls, settle_all; simpl.
  apply list_eq. intros j. rewrite !list_lookup_fmap, list_lookup_imap.
  destruct (fetches st !! j) as [g|]; [|done]. simpl.
  by destruct (decide (j ∈ hs)).
Qed.

Lemma transport_calls_insert h fh a o obs st :
  fetches st !! h = Some fh ->
  transport_calls
    (set_fetches (<[h := mkFetch (fetch_id fh) (fetch_url fh) a o obs]> (fetches st)) st)
  = transport_calls st.
Proof.
  intros Hf. unfold transport_calls; simpl.
  apply list_eq. intros j. rewrite !list_lookup_fmap, list_lookup_insert.
  destruct (decide (h = j ∧ h < length (fetches st))) as [[<- _]|_]; [|done].
  by rewrite Hf.
Qed.

(** Unless the answer is a 404 for an id other than the not-found one, the
    turn ends with the subject and its observers holding one document. *)
Lemma respond_settles h resp st fh :
  wf st -> fetches st !! h = Some fh -> answered fh = false ->
  (fetch_id fh = FILE_NOT_FOUND_ID
   \/ forall e, pipe (fetch_id fh) resp = Raise e -> status_is_404 e = false) ->
  exists d c',
    respond h resp st
    = settle_all (h :: observers fh) (Emit d) (set_cache c' (mark_answered h st)).
Proof.
  intros Hwf Hf Ha Hcase.
  destruct (pipe (fetch_id fh) resp) as [d|e] eqn:Hp.
  - exists d, (cache (mark_answered h st)). rewrite set_cache_id.
    by apply respond_success.
  - destruct (status_is_404 e) eqn:He.
    + destruct Hcase as [Hid|Hno]; [|by rewrite (Hno e) in He].
      exists not_found_document, (cache (mark_answered h st)). rewrite set_cache_id.
      by eapply respond_not_found_itself.
    + eexists _, _. by eapply respond_generic.
Qed.

(** A pipe that waits for the subject of the not-found document gets the
    document of that subject as soon as the transport answers for it. *)
Lemma observed_answer st h fh k :
  wf st -> fetches st !! h = Some fh -> k ∈ observers fh ->
  answered fh = false
  /\ forall resp, exists d g gk,
       fetches (respond h resp st) !! h = Some g /\ outcome g = Some (Emit d)
       /\ fetches (respond h resp st) !! k = Some gk /\ outcome gk = Some (Emit d).
Proof.
  intros Hwf Hf Hk.
  destruct (wf_observers _ _ Hwf _ _ _ Hf Hk) as (Ho & Hid & ft & Hft & _).
  assert (Ha : answered fh = false).
  { by destruct (wf_fnf _ _ Hwf _ _ Hf Hid Ho). }
  split; [done|]. intros resp.
  destruct (respond_settles h resp st fh Hwf Hf Ha (or_introl Hid)) as (d & c' & ->).
  pose proof (proj2 (mark_answered_lookup h st fh h _ Hf)
                (ex_intro _ fh (conj Hf eq_refl))) as Hh1.
  pose proof (proj2 (mark_answered_lookup h st fh k _ Hf)
                (ex_intro _ ft (conj Hft eq_refl))) as Hk1.
  exists d. eexists _, _. split; [|split; [|split]].
  - apply settle_all_self; [exact Hh1|set_solver].
  - done.
  - apply settle_all_self; [exact Hk1|set_solver].
  - done.
Qed.

(** ** The stream *)

Lemma navigate_tracks path st :
  wf st ->
  exists h,
    cache (navigate path st) !! document_id path = Some (AsObservable h)
    /\ stream_tracks h (delivered (currentDocument st)) (navigate path st).
Proof.
  intros Hwf.
  destruct (navigate_spec path st Hwf) as (h & fh & _ & Hfh & _ & Hc & Heq).
  set (st0 := set_currentDocument
                (mkSwitchMap None (delivered (currentDocument st)) None) st) in *.
  assert (Hwf1 : wf (getDocument path st0).1).
  { apply wf_getDocument, wf_set_currentDocument; [done|done|]. by intros ? [=]. }
  exists h. rewrite Heq. split; [done|].
  destruct (outcome fh) as [n|] eqn:Hn.
  - destruct (wf_outcome _ _ Hwf1 _ _ _ Hfh Hn) as [d ->].
    right. split; [done|]. exists d, fh. simpl.
    by rewrite getDocument_stream.
  - by left.
Qed.

Lemma respond_tracks h D k resp st :
  wf st -> stream_tracks h D st -> stream_tracks h D (respond k resp st).
Proof.
  intros Hwf HJ.
  destruct (respond_effect k resp st Hwf) as (hs & d & Hs & Hft & Hopen & _).
  destruct HJ as [[Hin HD]|(Hin & d0 & f & HD & Hf & Ho)].
  - destruct (wf_inner _ _ Hwf _ Hin) as (f & Hf & Ho).
    destruct (Hft _ _ Hf) as (f' & Hf' & _ & _ & Ho').
    unfold stream_tracks. rewrite Hs. unfold stream_after. rewrite Hin.
    destruct (decide (h ∈ hs)) as [Hh|Hh].
    + right. split; [done|]. exists d, f'. simpl. by rewrite HD.
    + by left.
  - destruct (outcome_step st (Respond k resp) h f _ Hwf Hf Ho)
      as (f' & Hf' & _ & Ho').
    right. rewrite Hs. unfold stream_after. rewrite Hin.
    split; [done|]. by exists d0, f'.
Qed.

Lemma responses_track h D rs : forall st,
  wf st -> stream_tracks h D st -> stream_tracks h D (run (responses rs) st).
Proof.
  induction rs as [|[k resp] rs IH]; intros st Hwf HJ; simpl; [done|].
  apply IH; [by apply wf_respond|by apply respond_tracks].
Qed.

(** ** The resolver *)

Lemma append_inj_l (p x y : string) : p +:+ x = p +:+ y -> x = y.
Proof. induction p as [|a p IH]; simpl; [done|]. intros [= H]. by apply IH. Qed.

(** Off the names of Object.prototype the resolver is the one of the
    specification. *)
Lemma source_doc_own_keys i :
  inherited i = false -> source_doc i = JsString (spec_source_doc i).
Proof.
  unfold inherited, source_doc, spec_source_doc, indexMap_get.
  intros [H1 H2]%orb_false_elim.
  destruct (assoc i indexMap_own) as [v|] eqn:Hv.
  - assert (Ht : truthy (JsString v) = true).
    { simpl in Hv.
      repeat match type of Hv with
             | (if ?c then _ else _) = _ =>
                 destruct c; [injection Hv as <-; reflexivity|]
             end.
      discriminate Hv. }
    by rewrite Ht.
  - rewrite H1, H2. unfold array_find, placeholders. cbn [List.find existsb].
    rewrite (String.eqb_sym "resources" i), (String.eqb_sym "events" i).
    destruct (String.eqb i "resources"); [done|].
    destruct (String.eqb i "events"); done.
Qed.

Lemma requestPath_own_keys i :
  inherited i = false ->
  requestPath i = baseHref +:+ "content/docs/" +:+ spec_source_doc i +:+ ".md".
Proof. intros Hi. unfold requestPath. by rewrite (source_doc_own_keys i Hi). Qed.

(** ** The statements of the specification *)

(** C1: While the fetch of an id has not completed, every [getDocument] of
    that id returns the one shared subject and changes nothing, so two calls
    in a row yield the same instance; once the fetch of an id has succeeded,
    [getDocument] keeps returning the cached, completed subject, whatever
    happens in between, and calls the transport no more; no two open fetches
    are of the same id. *)
Theorem C1_getDocument_shares_one_fetch evs :
  let st := run evs init in
  (forall url, getDocument url (getDocument url st).1 = getDocument url st)
  /\ (forall h f, fetches st !! h = Some f -> outcome f = None ->
        getDocument (fetch_id f) st = (st, AsObservable h))
  /\ (forall h1 h2 f1 f2,
        fetches st !! h1 = Some f1 -> fetches st !! h2 = Some f2 ->
        fetch_id f1 = fetch_id f2 -> outcome f1 = None -> outcome f2 = None ->
        h1 = h2)
  /\ (forall k f body c evs',
        fetches st !! k = Some f -> answered f = false ->
        compile body = Returns c ->
        let st' := run evs' (respond k (Ok body) st) in
        getDocument (fetch_id f) st' = (st', AsObservable k)
        /\ transport_calls (getDocument (fetch_id f) st').1 = transport_calls st'
        /\ exists f', fetches st' !! k = Some f'
             /\ outcome f' = Some (Emit (mkDoc (fetch_id f) c))).
Proof.
  intros st. pose proof (wf_reachable evs) as Hwf. fold st in Hwf.
  split; [|split; [|split]].
  - intros url. destruct (cache st !! document_id url) as [o|] eqn:Hc.
    + rewrite (getDocument_hit _ _ _ Hc). simpl. by apply getDocument_hit.
    + rewrite (getDocument_miss _ _ Hc). simpl. apply getDocument_hit. simpl.
      by rewrite lookup_insert_eq.
  - intros h f Hf Ho. apply getDocument_hit.
    rewrite (document_id_id _ (wf_id_nonempty _ _ _ _ Hwf Hf)).
    by eapply open_cached.
  - intros h1 h2 f1 f2 Hf1 Hf2 Hid Ho1 Ho2.
    pose proof (open_cached _ _ _ _ Hwf Hf1 Ho1) as H1.
    pose proof (open_cached _ _ _ _ Hwf Hf2 Ho2) as H2.
    rewrite Hid in H1. congruence.
  - intros k f body c evs' Hf Ha Hc st'.
    destruct (respond_ok k body c st f Hwf Hf Ha Hc) as (Hk & Hcache & _).
    set (st1 := respond k (Ok body) st) in *.
    assert (Hwf1 : wf st1) by by apply wf_respond.
    assert (Hc1 : cache st1 !! fetch_id f = Some (AsObservable k)).
    { rewrite Hcache.
      exact (open_cached _ _ _ _ Hwf Hf (wf_pending _ _ Hwf _ _ Hf Ha)). }
    destruct (outcome_run evs' st1 k _ _ Hwf1 Hk eq_refl) as (f' & Hf' & Hid' & Ho').
    pose proof (cached_run evs' st1 k _ _ Hwf1 Hk eq_refl Hc1) as Hc'.
    simpl in Hid', Hc'. fold st' in Hf', Hc'.
    assert (Hget : getDocument (fetch_id f) st' = (st', AsObservable k)).
    { apply getDocument_hit.
      by rewrite (document_id_id _ (wf_id_nonempty _ _ _ _ Hwf Hf)). }
    split; [done|]. split; [by rewrite Hget|]. by exists f'.
Qed.

(** C4: When the transport answers the request of a fetch of id X with the
    text T, and the renderer returns for T, the subject latches
    { id: X, contents: render(T) }.  The request was for the source path of
    X, which may name another document; the id in the document is X. *)
Theorem C4_success_keeps_requested_id evs k f body c :
  let st := run evs init in
  fetches st !! k = Some f -> answered f = false ->
  compile body = Returns c ->
  let st' := respond k (Ok body) st in
  fetch_url f = requestPath (fetch_id f)
  /\ (exists f', fetches st' !! k = Some f'
        /\ outcome f' = Some (Emit (mkDoc (fetch_id f) c)))
  /\ (innerSubscription (currentDocument st) = Some k ->
      delivered (currentDocument st')
      = delivered (currentDocument st) ++ [mkDoc (fetch_id f) c]).
Proof.
  intros st Hf Ha Hc st'. pose proof (wf_reachable evs) as Hwf. fold st in Hwf.
  split; [by eapply wf_url|]. split.
  - destruct (respond_ok k body c st f Hwf Hf Ha Hc) as (Hk & _).
    eexists. split; [exact Hk|done].
  - intros Hin. unfold st'.
    rewrite (respond_success k (Ok body) st f Hwf Hf Ha _ (pipe_ok _ _ _ Hc)).
    unfold settle_all; simpl. rewrite mark_answered_stream, Hin.
    by rewrite decide_True by set_solver.
Qed.

(** C2: Whatever the transport answers, and whatever the renderer does
    with the text, the subject a fetch returns ends holding a document.  No
    subject ever holds an error and [currentDocument] never fails; the answer
    to the request of a fetch completes its subject at once, except after a
    404 for an id other than the not-found one, when the subject waits for
    the fetch of the not-found document and is completed by the answer to
    that request.  So a fetch whose request is answered holds a document or
    waits for an unanswered request, and once the transport has answered
    every request every subject holds a document. *)
Theorem C2_every_fetch_ends_in_a_document evs :
  let st := run evs init in
  (forall k f n, fetches st !! k = Some f -> outcome f = Some n ->
     exists d, n = Emit d)
  /\ errored (currentDocument st) = None
  /\ (forall k f, fetches st !! k = Some f -> answered f = true ->
        (exists d, outcome f = Some (Emit d))
        \/ (exists h fh, fetches st !! h = Some fh /\ answered fh = false
                         /\ k ∈ observers fh))
  /\ ((forall k f, fetches st !! k = Some f -> answered f = true) ->
      forall k f, fetches st !! k = Some f -> exists d, outcome f = Some (Emit d))
  /\ (forall k f resp, fetches st !! k = Some f -> answered f = false ->
        let st' := respond k resp st in
        (exists f' d, fetches st' !! k = Some f' /\ outcome f' = Some (Emit d))
        \/ (exists h fh f',
              fetches st' !! h = Some fh /\ fetch_id fh = FILE_NOT_FOUND_ID
              /\ answered fh = false /\ k ∈ observers fh
              /\ fetches st' !! k = Some f' /\ outcome f' = None))
  /\ (forall h fh k, fetches st !! h = Some fh -> k ∈ observers fh ->
        answered fh = false
        /\ forall resp, exists d g gk,
             fetches (respond h resp st) !! h = Some g
             /\ outcome g = Some (Emit d)
             /\ fetches (respond h resp st) !! k = Some gk
             /\ outcome gk = Some (Emit d)).
Proof.
  intros st. pose proof (wf_reachable evs) as Hwf. fold st in Hwf.
  split; [exact (wf_outcome _ _ Hwf)|]. split; [exact (wf_stream _ _ Hwf)|].
  assert (Hanswered : forall k f, fetches st !! k = Some f -> answered f = true ->
    (exists d, outcome f = Some (Emit d))
    \/ (exists h fh, fetches st !! h = Some fh /\ answered fh = false
                     /\ k ∈ observers fh)).
  { intros k f Hf Ha. destruct (outcome f) as [n|] eqn:Ho.
    - left. destruct (wf_outcome _ _ Hwf _ _ _ Hf Ho) as [d ->]. by exists d.
    - right. destruct (wf_waiting _ _ Hwf _ _ Hf Ha Ho) as [[=]|(h & fh & Hfh & Hk)].
      exists h, fh. split; [done|]. split; [|done].
      exact (proj1 (observed_answer st h fh k Hwf Hfh Hk)). }
  split; [exact Hanswered|]. split.
  { intros Hall k f Hf.
    destruct (Hanswered _ _ Hf (Hall _ _ Hf)) as [?|(h & fh & Hfh & Hah & _)]; [done|].
    rewrite (Hall _ _ Hfh) in Hah. done. }
  split; [|intros h fh k; by apply observed_answer].
  intros k f resp Hf Ha st'.
  pose proof (wf_respond k resp st Hwf) as Hwf'. fold st' in Hwf'.
  pose proof (mark_answered_self k st f Hf) as Hk1.
  destruct (decide (fetch_id f = FILE_NOT_FOUND_ID)) as [Hid|Hid].
  { left. destruct (respond_settles k resp st f Hwf Hf Ha (or_introl Hid))
      as (d & c' & Heq).
    eexists _, d. split;
      [unfold st'; rewrite Heq; apply settle_all_self; [exact Hk1|set_solver]|done]. }
  destruct (pipe (fetch_id f) resp) as [d|e] eqn:Hp.
  { left. eexists _, d. split;
      [unfold st'; rewrite (respond_success k resp st f Hwf Hf Ha d Hp);
       apply settle_all_self; [exact Hk1|set_solver]|done]. }
  destruct (status_is_404 e) eqn:He.
  - destruct (respond_not_found_spec k resp st f Hwf Hf Ha e Hp He Hid)
      as (h & fh & _ & _ & Hfh & Hidh & Heq & _).
    fold st' in Heq.
    set (st2 := (getDocument FILE_NOT_FOUND_ID (mark_answered k st)).1) in *.
    assert (Hk2 : fetches st2 !! k
                  = Some (mkFetch (fetch_id f) (fetch_url f) true (outcome f)
                            (observers f))) by by apply getDocument_old.
    assert (Hhk : h <> k) by (intros ->; rewrite Hk2 in Hfh; by injection Hfh as <-).
    destruct (outcome fh) as [n|] eqn:Hn.
    + left. assert (Hk' : fetches st' !! k = Some (resolved n
          (mkFetch (fetch_id f) (fetch_url f) true (outcome f) (observers f)))).
      { rewrite Heq. apply settle_all_self; [done|set_solver]. }
      destruct (wf_outcome _ _ Hwf' _ _ n Hk' eq_refl) as [d ->]. by eexists _, d.
    + right.
      assert (Hh' : fetches st' !! h
                    = Some (mkFetch (fetch_id fh) (fetch_url fh) (answered fh) None
                              (observers fh ++ [k]))).
      { rewrite Heq. simpl. apply list_lookup_insert_eq. by eapply lookup_lt_Some. }
      eexists h, _, _. split; [exact Hh'|]. split; [done|]. split; [|split; [|split]].
      * by destruct (wf_fnf _ _ Hwf' _ _ Hh' Hidh eq_refl).
      * simpl. set_solver.
      * rewrite Heq. simpl. rewrite list_lookup_insert_ne by done. exact Hk2.
      * simpl. exact (wf_pending _ _ Hwf _ _ Hf Ha).
  - left. eexists _, _. split;
      [unfold st'; rewrite (respond_generic k resp st f Hwf Hf Ha e Hp He);
       apply settle_all_self; [exact Hk1|set_solver]|done].
Qed.

(** C5: When the transport fails with a status other than 404 on the
    request of a fetch of id Y, the subject latches the fetching-error
    document, Y leaves the cache, and the next [getDocument(Y)] makes a new
    subject and a new request to the transport.  [getErrorDoc] itself calls
    neither the cache lookup nor the transport: it returns a fresh [of(...)]. *)
Theorem C5_generic_failure_evicts evs k f status :
  let st := run evs init in
  fetches st !! k = Some f -> answered f = false -> status <> 404%Z ->
  let st' := respond k (Failure status) st in
  (exists f', fetches st' !! k = Some f'
     /\ outcome f' = Some (Emit (mkDoc FETCHING_ERROR_ID (MString FETCHING_ERROR_CONTENTS))))
  /\ cache st' !! fetch_id f = None
  /\ transport_calls st' = transport_calls st
  /\ (forall i e s,
        (getErrorDoc i e s).2
        = Of (mkDoc FETCHING_ERROR_ID (MString FETCHING_ERROR_CONTENTS))
        /\ fetches (getErrorDoc i e s).1 = fetches s)
  /\ (getDocument (fetch_id f) st').2 = AsObservable (length (fetches st))
  /\ k < length (fetches st)
  /\ transport_calls (getDocument (fetch_id f) st').1
     = transport_calls st' ++ [requestPath (fetch_id f)].
Proof.
  intros st Hf Ha Hs st'. pose proof (wf_reachable evs) as Hwf. fold st in Hwf.
  assert (He : status_is_404 (HttpErrorResponse status) = false)
    by (by apply Z.eqb_neq).
  pose proof (respond_generic k (Failure status) st f Hwf Hf Ha _
                (pipe_failure _ _) He) as Heq.
  fold st' in Heq.
  assert (Hc : cache st' !! fetch_id f = None).
  { rewrite Heq. simpl. apply lookup_delete_eq. }
  assert (Hlen : length (fetches st') = length (fetches st)).
  { rewrite Heq. unfold settle_all; simpl.
    by rewrite length_imap, mark_answered_length. }
  assert (Hid : document_id (fetch_id f) = fetch_id f).
  { apply document_id_id. exact (wf_id_nonempty _ _ _ _ Hwf Hf). }
  rewrite <- Hid in Hc.
  split; [|split; [|split; [|split; [|split; [|split]]]]].
  - rewrite Heq. eexists. split;
      [apply settle_all_self; [by apply mark_answered_self|set_solver]|done].
  - by rewrite <- Hid.
  - rewrite Heq.
    by rewrite transport_calls_settle_all, transport_calls_set_cache,
      transport_calls_mark_answered.
  - done.
  - rewrite (getDocument_miss _ _ Hc). simpl. by rewrite Hlen.
  - by eapply lookup_lt_Some.
  - rewrite (getDocument_miss _ _ Hc). unfold transport_calls; simpl.
    by rewrite fmap_app, Hid.
Qed.


(** C6 (as amended): After a 404 for an id Z other than FILE_NOT_FOUND_ID
    the pipe subscribes to what [getDocument(FILE_NOT_FOUND_ID)] returns, so
    the subject of Z ends with the document of that subject, at once if it
    is completed and else with the answer to its request.  The transport is
    asked for the not-found content only when the cache has no entry for it;
    at any time every fetch of the not-found content but the cached one has
    ended in the fetching-error document, the generic failure that evicted
    it.  The entry of Z stays in the cache, and a turn removes an entry only
    when the fetch of that id ends in the generic-error branch. *)
Theorem C6_not_found_reuses_cached_fetch evs k f :
  let st := run evs init in
  fetches st !! k = Some f -> answered f = false ->
  fetch_id f <> FILE_NOT_FOUND_ID ->
  let st' := respond k (Failure 404) st in
  (exists h fh,
     (getDocument FILE_NOT_FOUND_ID (mark_answered k st)).2 = AsObservable h
     /\ fetches (getDocument FILE_NOT_FOUND_ID (mark_answered k st)).1 !! h = Some fh
     /\ match outcome fh with
        | Some n => exists f', fetches st' !! k = Some f' /\ outcome f' = Some n
        | None =>
            (exists fh', fetches st' !! h = Some fh' /\ k ∈ observers fh')
            /\ forall resp, exists d g gk,
                 fetches (respond h resp st') !! h = Some g
                 /\ outcome g = Some (Emit d)
                 /\ fetches (respond h resp st') !! k = Some gk
                 /\ outcome gk = Some (Emit d)
        end)
  /\ (is_Some (cache st !! FILE_NOT_FOUND_ID) ->
      transport_calls st' = transport_calls st)
  /\ (cache st !! FILE_NOT_FOUND_ID = None ->
      transport_calls st' = transport_calls st ++ [requestPath FILE_NOT_FOUND_ID])
  /\ (forall j g, fetches st' !! j = Some g -> fetch_id g = FILE_NOT_FOUND_ID ->
        cache st' !! FILE_NOT_FOUND_ID = Some (AsObservable j)
        \/ outcome g
           = Some (Emit (mkDoc FETCHING_ERROR_ID (MString FETCHING_ERROR_CONTENTS))))
  /\ cache st' !! fetch_id f = Some (AsObservable k)
  /\ (forall ev i o, cache st !! i = Some o -> cache (step st ev) !! i = None ->
        exists j resp g, ev = Respond j resp /\ fetches st !! j = Some g
          /\ answered g = false /\ fetch_id g = i /\ generic_failure i resp).
Proof.
  intros st Hf Ha Hid st'. pose proof (wf_reachable evs) as Hwf. fold st in Hwf.
  pose proof (wf_respond k (Failure 404) st Hwf) as Hwf'. fold st' in Hwf'.
  destruct (respond_not_found_spec k (Failure 404) st f Hwf Hf Ha _
              (pipe_failure _ _) eq_refl Hid)
    as (h & fh & Ho & Hch & Hfh & Hidh & Heq & _).
  fold st' in Heq.
  set (st2 := (getDocument FILE_NOT_FOUND_ID (mark_answered k st)).1) in *.
  assert (Hk2 : fetches st2 !! k
                = Some (mkFetch (fetch_id f) (fetch_url f) true (outcome f)
                          (observers f)))
    by (by apply getDocument_old, mark_answered_self).
  assert (Hcache' : cache st' = cache st2).
  { rewrite Heq. by destruct (outcome fh). }
  assert (Hcalls' : transport_calls st' = transport_calls st2).
  { rewrite Heq. destruct (outcome fh).
    - apply transport_calls_settle_all.
    - by apply transport_calls_insert. }
  split; [|split; [|split; [|split; [|split]]]].
  - exists h, fh. split; [done|]. split; [done|].
    destruct (outcome fh) as [n|] eqn:Hn.
    + eexists. split; [rewrite Heq; apply settle_all_self; [done|set_solver]|done].
    + assert (Hh' : fetches st' !! h
                    = Some (mkFetch (fetch_id fh) (fetch_url fh) (answered fh) None
                              (observers fh ++ [k]))).
      { rewrite Heq. simpl. apply list_lookup_insert_eq. by eapply lookup_lt_Some. }
      assert (Hin : k ∈ observers fh ++ [k]) by set_solver.
      split; [by eexists|].
      exact (proj2 (observed_answer st' h _ k Hwf' Hh' Hin)).
  - intros [o Hc]. rewrite Hcalls'. unfold st2.
    rewrite (getDocument_hit _ _ o); [apply transport_calls_mark_answered|].
    by rewrite mark_answered_cache.
  - intros Hc. rewrite Hcalls'. unfold st2.
    rewrite getDocument_miss by (by rewrite mark_answered_cache).
    unfold transport_calls at 1; simpl. rewrite fmap_app.
    by rewrite <- transport_calls_mark_answered with (k := k).
  - intros j g Hg Hidg. rewrite <- Hidg. exact (wf_cached _ _ Hwf' _ _ Hg).
  - rewrite Hcache'. apply getDocument_cache_old. rewrite mark_answered_cache.
    exact (open_cached _ _ _ _ Hwf Hf (wf_pending _ _ Hwf _ _ Hf Ha)).
  - intros ev i o Hi Hnone. destruct ev as [path|j resp]; simpl in Hnone.
    + rewrite (proj2 (navigate_effect path st Hwf) _ _ Hi) in Hnone. done.
    + destruct (respond_effect j resp st Hwf) as (hs & d & _ & _ & _ & Hc).
      destruct (Hc _ _ Hi) as [Hkeep|(g & Hg & Hag & Hidg & _ & Hgen)];
        [congruence|].
      by exists j, resp, g.
Qed.

(** C9: Let the location emit path a and later path b, with any answers of
    the transport before, in between and after.  As long as the fetch of a
    is incomplete nothing is emitted for a; and once b has arrived,
    [currentDocument] emits nothing more, or exactly one document, the one
    latched by the subject that [getDocument(b)] returned.  So a result of a
    that arrives after b is dropped and never emitted. *)
Theorem C9_only_the_latest_path_is_emitted evs a rs0 b rs :
  let st := run evs init in
  let sta := run (responses rs0) (navigate a st) in
  let stb := navigate b sta in
  let st' := run (responses rs) stb in
  (innerSubscription (currentDocument sta) <> None ->
   delivered (currentDocument sta) = delivered (currentDocument st))
  /\ exists h,
       cache stb !! document_id b = Some (AsObservable h)
       /\ (delivered (currentDocument st') = delivered (currentDocument sta)
           \/ exists d f,
                delivered (currentDocument st') = delivered (currentDocument sta) ++ [d]
                /\ fetches st' !! h = Some f /\ outcome f = Some (Emit d)).
Proof.
  intros st sta stb st'. pose proof (wf_reachable evs) as Hwf. fold st in Hwf.
  assert (Hwfa0 : wf (navigate a st)) by by apply wf_navigate.
  assert (Hwfa : wf sta) by by apply wf_run.
  assert (Hwfb : wf stb) by by apply wf_navigate.
  split.
  - destruct (navigate_tracks a st Hwf) as (ha & _ & HJ).
    destruct (responses_track ha _ rs0 _ Hwfa0 HJ) as [[_ HD]|[Hnone _]]; [done|].
    fold sta in Hnone. by intros [].
  - destruct (navigate_tracks b sta Hwfa) as (h & Hc & HJ).
    exists h. split; [done|].
    destruct (responses_track h _ rs stb Hwfb HJ) as [[_ HD]|(_ & d & f & HD & Hf & Ho)].
    + by left.
    + right. by exists d, f.
Qed.

(** C10: On a successful answer the value [tap] inspects is the object
    literal { id, contents } that [map] has just built.  It is truthy and of
    type 'object' whatever the renderer returned, so the callback never
    throws 'Invalid data': the pipe emits the document also when [contents]
    is null or undefined, and an error can only come from the transport or
    from an exception of the renderer. *)
Theorem C10_invalid_data_is_unreachable i body :
  (forall d, invalid_data (JsDocument d) = false /\ check_data d = Returns tt)
  /\ pipe i (Ok body)
     = match compile body with
       | Returns c => Emit (mkDoc i c)
       | Throws e => Raise e
       end
  /\ (compile body = Returns MNull -> pipe i (Ok body) = Emit (mkDoc i MNull))
  /\ (compile body = Returns MUndefined ->
      pipe i (Ok body) = Emit (mkDoc i MUndefined)).
Proof.
  split; [done|]. split; [|split].
  - unfold pipe, to_document; simpl. by destruct (compile body).
  - apply pipe_ok.
  - apply pipe_ok.
Qed.

(** C3: The empty path resolves to "index", an alias key to its alias and
    a placeholder id to "placeholder"; the source path is
    baseHref + "content/docs/" + source document + ".md".  The read
    [indexMap[id]] also finds what an object inherits: for the id "toString"
    or "constructor" it yields a built-in function, for "__proto__" the
    prototype object, both truthy, and the source document is then neither
    an alias nor the id but that value converted to a string. *)
Theorem C3_resolver_reads_inherited_properties :
  document_id EmptyString = "index"
  /\ requestPath (document_id EmptyString) = baseHref +:+ "content/docs/index.md"
  /\ source_doc "guide/store" = JsString "guide/store/index"
  /\ source_doc "resources" = JsString "placeholder"
  /\ source_doc "toString" = JsFunction "toString"
  /\ source_doc "constructor" = JsFunction "constructor"
  /\ requestPath "constructor"
     = baseHref +:+ "content/docs/" +:+ functionSource "constructor" +:+ ".md"
  /\ source_doc "__proto__" = JsObjectPrototype
  /\ requestPath "__proto__" = baseHref +:+ "content/docs/[object Object].md"
  /\ requestPath "__proto__"
     <> baseHref +:+ "content/docs/" +:+ spec_source_doc "__proto__" +:+ ".md".
Proof.
  do 9 (split; [reflexivity|]).
  intros H%append_inj_l. discriminate H.
Qed.

(** * More about the service *)

(** ** A turn, case by case *)

Lemma pipe_emit_id i resp d : pipe i resp = Emit d -> id d = i.
Proof.
  destruct (pipe_cases i resp)
    as [(body & c & _ & _ & ->)|[(body & e & _ & _ & ->)|(status & _ & ->)]];
    [by intros [= <-]|done|done].
Qed.

Lemma pipe_throws i body e :
  compile body = Throws e -> pipe i (Ok body) = Raise e.
Proof. intros Hc. unfold pipe, to_document; simpl. by rewrite Hc. Qed.

(** The answer to an open request ends in one of two ways: the subject and
    its observers latch a document (of the pipe, the built-in not-found
    document, or the fetching-error document), or the pipe turns to the
    subject of the not-found document. *)
Lemma respond_cases k resp st f :
  wf st -> fetches st !! k = Some f -> answered f = false ->
  (exists d c',
     respond k resp st
     = settle_all (k :: observers f) (Emit d) (set_cache c' (mark_answered k st))
     /\ (pipe (fetch_id f) resp = Emit d
         \/ d = not_found_document /\ fetch_id f = FILE_NOT_FOUND_ID
         \/ d = fetching_error_document))
  \/ (fetch_id f <> FILE_NOT_FOUND_ID
      /\ exists h fh,
           fetches (getDocument FILE_NOT_FOUND_ID (mark_answered k st)).1 !! h = Some fh
           /\ fetch_id fh = FILE_NOT_FOUND_ID
           /\ respond k resp st
              = match outcome fh with
                | Some n =>
                    settle_all [k] n (getDocument FILE_NOT_FOUND_ID (mark_answered k st)).1
                | None =>
                    set_fetches
                      (<[h := mkFetch (fetch_id fh) (fetch_url fh) (answered fh) None
                                (observers fh ++ [k])]>
                         (fetches (getDocument FILE_NOT_FOUND_ID (mark_answered k st)).1))
                      (getDocument FILE_NOT_FOUND_ID (mark_answered k st)).1
                end).
Proof.
  intros Hwf Hf Ha.
  destruct (pipe (fetch_id f) resp) as [d|e] eqn:Hp.
  - left. exists d, (cache (mark_answered k st)). rewrite set_cache_id.
    split; [by apply respond_success|by left].
  - destruct (status_is_404 e) eqn:He.
    + destruct (decide (fetch_id f = FILE_NOT_FOUND_ID)) as [Hid|Hid].
      * left. exists not_found_document, (cache (mark_answered k st)).
        rewrite set_cache_id.
        split; [by eapply respond_not_found_itself|right; by left].
      * right. split; [done|].
        destruct (respond_not_found_spec k resp st f Hwf Hf Ha e Hp He Hid)
          as (h & fh & _ & _ & Hfh & Hidh & Heq & _).
        by exists h, fh.
    + left. exists fetching_error_document, (delete (fetch_id f) (cache st)).
      split; [by eapply respond_generic|right; by right].
Qed.

Lemma mark_answered_back k st j g1 :
  fetches (mark_answered k st) !! j = Some g1 ->
  exists g, fetches st !! j = Some g
    /\ fetch_id g1 = fetch_id g /\ fetch_url g1 = fetch_url g
    /\ outcome g1 = outcome g.
Proof.
  destruct (fetches st !! k) as [f|] eqn:Hf.
  - intros (g & Hg & ->)%(mark_answered_lookup _ _ _ _ _ Hf).
    exists g. split; [done|]. by destruct (decide (j = k)).
  - unfold mark_answered. rewrite Hf. intros Hg. by exists g1.
Qed.

Lemma getDocument_back url st j g :
  fetches (getDocument url st).1 !! j = Some g ->
  fetches st !! j = Some g
  \/ j = length (fetches st)
     /\ g = mkFetch (document_id url) (requestPath (document_id url)) false None [].
Proof.
  unfold getDocument. destruct (cache st !! document_id url); simpl; [by left|].
  intros [[_ ?]|[-> <-]]%lookup_snoc_Some; [by left|by right].
Qed.

(** ** The transport log *)

Lemma getDocument_calls url st :
  exists l,
    transport_calls (getDocument url st).1 = transport_calls st ++ l
    /\ (l = []
        \/ l = [requestPath (document_id url)]
           /\ cache st !! document_id url = None).
Proof.
  destruct (cache st !! document_id url) as [o|] eqn:Hc.
  - rewrite (getDocument_hit _ _ _ Hc). exists []. simpl.
    split; [by rewrite app_nil_r|by left].
  - rewrite (getDocument_miss _ _ Hc). exists [requestPath (document_id url)].
    split; [|by right]. unfold transport_calls; simpl. by rewrite fmap_app.
Qed.

Lemma respond_calls k resp st :
  wf st ->
  exists l,
    transport_calls (respond k resp st) = transport_calls st ++ l
    /\ (l = []
        \/ l = [requestPath FILE_NOT_FOUND_ID]
           /\ cache st !! FILE_NOT_FOUND_ID = None).
Proof.
  intros Hwf.
  destruct (fetches st !! k) as [f|] eqn:Hf;
    [|exists []; unfold respond; rewrite Hf, app_nil_r; by split; [|left]].
  destruct (answered f) eqn:Ha;
    [exists []; unfold respond; rewrite Hf, Ha, app_nil_r; by split; [|left]|].
  destruct (respond_cases k resp st f Hwf Hf Ha)
    as [(d & c' & -> & _)|(_ & h & fh & Hfh & _ & ->)].
  - exists []. rewrite app_nil_r. split; [|by left].
    by rewrite transport_calls_settle_all, transport_calls_set_cache,
      transport_calls_mark_answered.
  - destruct (getDocument_calls FILE_NOT_FOUND_ID (mark_answered k st))
      as (l & Hl & Hcase).
    rewrite transport_calls_mark_answered, mark_answered_cache in *.
    exists l. split; [|done]. rewrite <- Hl. destruct (outcome fh).
    + apply transport_calls_settle_all.
    + by apply transport_calls_insert.
Qed.

Lemma navigate_calls path st :
  wf st ->
  exists l,
    transport_calls (navigate path st) = transport_calls st ++ l
    /\ (l = []
        \/ l = [requestPath (document_id path)]
           /\ cache st !! document_id path = None).
Proof.
  intros Hwf. destruct (navigate_spec path st Hwf) as (h & fh & _ & _ & _ & _ & ->).
  apply (getDocument_calls path
           (set_currentDocument
              (mkSwitchMap None (delivered (currentDocument st)) None) st)).
Qed.

(** X1: The cache is keyed by the id, not by the source path.  No two ids
    ever share a subject; and two different ids neither of which is cached
    get a subject and a request of the transport each, also when both
    resolve to the same source document and so ask for the same path. *)
Theorem X1_dedup_is_per_id_not_per_source evs a b :
  let st := run evs init in
  (forall i j h, cache st !! i = Some (AsObservable h) ->
     cache st !! j = Some (AsObservable h) -> i = j)
  /\ (document_id a <> document_id b ->
      cache st !! document_id a = None -> cache st !! document_id b = None ->
      let r1 := getDocument a st in
      let r2 := getDocument b r1.1 in
      r1.2 = AsObservable (length (fetches st))
      /\ r2.2 = AsObservable (S (length (fetches st)))
      /\ transport_calls r2.1
         = transport_calls st
           ++ [requestPath (document_id a); requestPath (document_id b)]
      /\ (source_doc (document_id a) = source_doc (document_id b) ->
          requestPath (document_id a) = requestPath (document_id b))).
Proof.
  intros st. pose proof (wf_reachable evs) as Hwf. fold st in Hwf. split.
  { intros i j h Hi Hj.
    destruct (wf_cache _ _ Hwf _ _ Hi) as (h1 & f1 & [= <-] & Hf1 & <-).
    destruct (wf_cache _ _ Hwf _ _ Hj) as (h2 & f2 & [= <-] & Hf2 & <-).
    congruence. }
  intros Hne Ha Hb r1 r2. unfold r2, r1.
  rewrite (getDocument_miss _ _ Ha). simpl.
  rewrite getDocument_miss by (simpl; by rewrite lookup_insert_ne).
  simpl. split; [done|]. split; [by rewrite length_app, Nat.add_1_r|]. split.
  - unfold transport_calls; simpl. by rewrite !fmap_app, <- app_assoc.
  - intros Hs. unfold requestPath. by rewrite Hs.
Qed.

(** X2: The log of transport requests only grows, by one request a turn at
    most: a navigation asks for the source path of its id when that id is
    not cached, an answer of the transport asks for the not-found document
    when the cache has none, and nothing else asks. *)
Theorem X2_at_most_one_request_a_turn evs ev :
  let st := run evs init in
  exists l,
    transport_calls (step st ev) = transport_calls st ++ l
    /\ (l = []
        \/ (exists path, ev = Navigate path
                         /\ l = [requestPath (document_id path)]
                         /\ cache st !! document_id path = None)
        \/ (exists k resp, ev = Respond k resp
                           /\ l = [requestPath FILE_NOT_FOUND_ID]
                           /\ cache st !! FILE_NOT_FOUND_ID = None)).
Proof.
  intros st. pose proof (wf_reachable evs) as Hwf. fold st in Hwf.
  destruct ev as [path|k resp]; simpl.
  - destruct (navigate_calls path st Hwf) as (l & Hl & [->|[-> Hc]]).
    + exists []. split; [done|by left].
    + eexists. split; [done|]. right; left. by exists path.
  - destruct (respond_calls k resp st Hwf) as (l & Hl & [->|[-> Hc]]).
    + exists []. split; [done|by left].
    + eexists. split; [done|]. right; right. by exists k, resp.
Qed.

(** ** Subjects and cache over time *)

(** X3: A subject latches once.  The value a subject holds after it has
    completed is the value it holds ever after, whatever the location and
    the transport do. *)
Theorem X3_latched_value_is_final evs evs' k f n :
  let st := run evs init in
  fetches st !! k = Some f -> outcome f = Some n ->
  exists f', fetches (run evs' st) !! k = Some f'
    /\ fetch_id f' = fetch_id f /\ outcome f' = Some n.
Proof.
  intros st Hf Hn. apply (outcome_run evs' st k f n); [apply wf_reachable|done..].
Qed.

(** X4: A failure of the not-found fetch sticks to the ids that wait for
    it.  When the request for the not-found document fails with a status
    other than 404 while the subject of a missing id Z waits for it, Z
    latches the fetching-error document; only FILE_NOT_FOUND_ID is evicted,
    Z stays cached, and every later [getDocument(Z)] returns that completed
    subject without a new request. *)
Theorem X4_error_of_not_found_fetch_sticks evs h fh k fk status evs' :
  let st := run evs init in
  fetches st !! h = Some fh -> k ∈ observers fh ->
  fetches st !! k = Some fk -> status <> 404%Z ->
  let st' := respond h (Failure status) st in
  let st'' := run evs' st' in
  cache st' !! FILE_NOT_FOUND_ID = None
  /\ cache st' !! fetch_id fk = Some (AsObservable k)
  /\ (exists fk', fetches st'' !! k = Some fk'
        /\ outcome fk'
           = Some (Emit (mkDoc FETCHING_ERROR_ID (MString FETCHING_ERROR_CONTENTS))))
  /\ getDocument (fetch_id fk) st'' = (st'', AsObservable k).
Proof.
  intros st Hfh Hk Hfk Hs st' st''.
  pose proof (wf_reachable evs) as Hwf. fold st in Hwf.
  destruct (wf_observers _ _ Hwf _ _ _ Hfh Hk)
    as (Hoh & Hidh & ft & Hft & Hidk & Hak & Hok).
  rewrite Hfk in Hft. injection Hft as <-.
  destruct (observed_answer st h fh k Hwf Hfh Hk) as [Hah _].
  assert (He : status_is_404 (HttpErrorResponse status) = false)
    by (by apply Z.eqb_neq).
  pose proof (respond_generic h (Failure status) st fh Hwf Hfh Hah _
                (pipe_failure _ _) He) as Heq.
  fold st' in Heq.
  assert (Hwf' : wf st') by by apply wf_respond.
  assert (Hk1 : fetches (mark_answered h st) !! k = Some fk).
  { apply (mark_answered_lookup _ _ _ _ _ Hfh). exists fk. split; [done|].
    rewrite decide_False; [done|]. intros ->. congruence. }
  assert (Hk' : fetches st' !! k = Some (resolved (Emit fetching_error_document) fk)).
  { rewrite Heq. apply settle_all_self; [exact Hk1|set_solver]. }
  assert (Hc' : cache st' !! fetch_id fk = Some (AsObservable k)).
  { rewrite Heq. simpl. rewrite Hidh, lookup_delete_ne by done.
    by eapply open_cached. }
  split; [rewrite Heq; simpl; rewrite Hidh; apply lookup_delete_eq|].
  split; [done|].
  destruct (outcome_run evs' st' k _ _ Hwf' Hk' eq_refl) as (fk' & Hfk' & _ & Ho').
  pose proof (cached_run evs' st' k _ _ Hwf' Hk' eq_refl Hc') as Hc''.
  split; [by exists fk'|].
  apply getDocument_hit.
  by rewrite (document_id_id _ (wf_id_nonempty _ _ _ _ Hwf Hfk)).
Qed.

(** X5: An exception of the renderer goes the way of a failed request.
    When the transport returns a text and [compile] throws an error on it,
    [catchError] catches it; the error has no status 404, so the subject
    latches the fetching-error document and the id is evicted, without a
    request to the transport. *)
Theorem X5_renderer_exception_is_a_generic_failure evs k f body msg :
  let st := run evs init in
  fetches st !! k = Some f -> answered f = false ->
  compile body = Throws (Error msg) ->
  let st' := respond k (Ok body) st in
  (exists f', fetches st' !! k = Some f'
     /\ outcome f'
        = Some (Emit (mkDoc FETCHING_ERROR_ID (MString FETCHING_ERROR_CONTENTS))))
  /\ cache st' !! fetch_id f = None
  /\ transport_calls st' = transport_calls st
  /\ errored (currentDocument st') = None.
Proof.
  intros st Hf Ha Hc st'. pose proof (wf_reachable evs) as Hwf. fold st in Hwf.
  pose proof (respond_generic k (Ok body) st f Hwf Hf Ha _
                (pipe_throws _ _ _ Hc) eq_refl) as Heq.
  fold st' in Heq.
  split; [|split; [|split]].
  - rewrite Heq. eexists. split;
      [apply settle_all_self; [by apply mark_answered_self|set_solver]|done].
  - rewrite Heq. simpl. apply lookup_delete_eq.
  - rewrite Heq.
    by rewrite transport_calls_settle_all, transport_calls_set_cache,
      transport_calls_mark_answered.
  - apply wf_stream with (x := None). by apply wf_respond.
Qed.

(** X6: A navigation to a cached id asks the transport for nothing.  If
    the subject in the cache has completed, its document is emitted at once
    (a completed subject replays) and [switchMap] is left without inner
    subscription; if the fetch is still in flight, [switchMap] joins it and
    nothing is emitted.  Cache, subjects and requests stay as they were. *)
Theorem X6_navigation_to_cached_id_replays_or_joins evs path h f :
  let st := run evs init in
  cache st !! document_id path = Some (AsObservable h) ->
  fetches st !! h = Some f ->
  (forall d, outcome f = Some (Emit d) ->
     navigate path st
     = set_currentDocument
         (mkSwitchMap None (delivered (currentDocument st) ++ [d]) None) st)
  /\ (outcome f = None ->
      navigate path st
      = set_currentDocument
          (mkSwitchMap (Some h) (delivered (currentDocument st)) None) st).
Proof.
  intros st Hc Hf. pose proof (wf_reachable evs) as Hwf. fold st in Hwf.
  split; [intros d Ho|intros Ho];
    unfold navigate; rewrite (wf_stream _ _ Hwf);
    rewrite (getDocument_hit _ _ (AsObservable h)) by done;
    simpl; by rewrite Hf, Ho.
Qed.

(** X7: A navigation cancels nothing.  Dropping the inner subscription of
    [switchMap] leaves every fetch as it is, answered or not, with its
    subject and observers, and every cache entry in place: the request of
    a superseded path stays open and its answer is still taken. *)
Theorem X7_navigation_cancels_nothing evs path :
  let st := run evs init in
  (forall j g, fetches st !! j = Some g -> fetches (navigate path st) !! j = Some g)
  /\ (forall i o, cache st !! i = Some o -> cache (navigate path st) !! i = Some o)
  /\ (forall k f body c,
        fetches st !! k = Some f -> answered f = false ->
        compile body = Returns c ->
        exists f', fetches (respond k (Ok body) (navigate path st)) !! k = Some f'
          /\ outcome f' = Some (Emit (mkDoc (fetch_id f) c))).
Proof.
  intros st. pose proof (wf_reachable evs) as Hwf. fold st in Hwf.
  destruct (navigate_effect path st Hwf) as [Hfs Hcs].
  split; [done|]. split; [done|].
  intros k f body c Hf Ha Hc.
  destruct (respond_ok k body c (navigate path st) f (wf_navigate _ _ Hwf)
              (Hfs _ _ Hf) Ha Hc) as (Hk & _).
  eexists. split; [exact Hk|done].
Qed.

(** X8: The cache is coherent.  In every state the service reaches a cache
    key is a non-empty id, and its entry is the subject of a fetch made for
    that very id, whose request asked for the source path of the id; the
    cache never holds an [of(...)] observable. *)
Theorem X8_cache_entries_are_fetches_of_their_key evs i o :
  let st := run evs init in
  cache st !! i = Some o ->
  i <> EmptyString
  /\ exists h f, o = AsObservable h /\ fetches st !! h = Some f
       /\ fetch_id f = i /\ fetch_url f = requestPath i
       /\ transport_calls st !! h = Some (requestPath i).
Proof.
  intros st Hi. pose proof (wf_reachable evs) as Hwf. fold st in Hwf.
  destruct (wf_cache _ _ Hwf _ _ Hi) as (h & f & -> & Hf & <-).
  destruct (wf_url _ _ Hwf _ _ Hf) as [Hu Hne].
  split; [done|]. exists h, f. do 4 (split; [done|]).
  unfold transport_calls. by rewrite list_lookup_fmap, Hf, <- Hu.
Qed.

(** ** The documents *)

Lemma navigate_back path st j g :
  wf st -> fetches (navigate path st) !! j = Some g ->
  fetches st !! j = Some g \/ outcome g = None.
Proof.
  intros Hwf. destruct (navigate_spec path st Hwf) as (h & fh & _ & _ & _ & _ & ->).
  simpl. intros [?|[_ ->]]%getDocument_back; [by left|by right].
Qed.

Lemma not_found_turn_back k st j g2 n :
  fetches (getDocument FILE_NOT_FOUND_ID (mark_answered k st)).1 !! j = Some g2 ->
  outcome g2 = Some n ->
  exists g, fetches st !! j = Some g /\ fetch_id g2 = fetch_id g
    /\ outcome g = Some n.
Proof.
  intros [Hg1|[_ ->]]%getDocument_back Ho; [|done].
  destruct (mark_answered_back _ _ _ _ Hg1) as (g & Hg & Hid & _ & Hout).
  exists g. split; [done|]. split; [done|]. congruence.
Qed.

Lemma ids_respond k resp st :
  wf st ->
  (forall j g d, fetches st !! j = Some g -> outcome g = Some (Emit d) ->
     id d = fetch_id g \/ id d = FILE_NOT_FOUND_ID \/ id d = FETCHING_ERROR_ID) ->
  forall j g d, fetches (respond k resp st) !! j = Some g ->
    outcome g = Some (Emit d) ->
    id d = fetch_id g \/ id d = FILE_NOT_FOUND_ID \/ id d = FETCHING_ERROR_ID.
Proof.
  intros Hwf HP j g' d0.
  destruct (fetches st !! k) as [f|] eqn:Hf;
    [|unfold respond; rewrite Hf; apply HP].
  destruct (answered f) eqn:Ha; [unfold respond; rewrite Hf, Ha; apply HP|].
  destruct (respond_cases k resp st f Hwf Hf Ha)
    as [(d & c' & -> & Hkind)|(_ & h & fh & Hfh & Hidh & ->)].
  - intros (g1 & Hg1 & ->)%settle_all_lookup. simpl in Hg1.
    destruct (mark_answered_back _ _ _ _ Hg1) as (g & Hg & Hid & _ & Hout).
    destruct (decide (j ∈ k :: observers f)) as [Hj|Hj].
    + simpl. intros [= <-]. rewrite Hid.
      destruct Hkind as [Hp|[[-> _]| ->]]; [|by right; left|by right; right].
      apply pipe_emit_id in Hp.
      apply elem_of_cons in Hj as [->|Hj].
      * left. congruence.
      * right; left.
        destruct (wf_observers _ _ Hwf _ _ _ Hf Hj) as (_ & Hidf & _). congruence.
    + intros Ho. rewrite Hid. apply (HP j g d0 Hg). congruence.
  - destruct (outcome fh) as [n|] eqn:Hn.
    + intros (g2 & Hg2 & ->)%settle_all_lookup.
      destruct (decide (j ∈ [k])) as [Hj|Hj].
      * simpl. intros [= ->].
        destruct (not_found_turn_back _ _ _ _ _ Hfh Hn) as (g & Hg & Hid & Ho).
        destruct (HP _ _ _ Hg Ho) as [Hd|Hd]; [|by right].
        right; left. congruence.
      * intros Ho.
        destruct (not_found_turn_back _ _ _ _ _ Hg2 Ho) as (g & Hg & Hid & Ho2).
        rewrite Hid. by apply (HP j g d0).
    + simpl. intros [(_ & <- & _)|[_ Hg2]]%list_lookup_insert_Some Ho; [done|].
      destruct (not_found_turn_back _ _ _ _ _ Hg2 Ho) as (g & Hg & Hid & Ho2).
      rewrite Hid. by apply (HP j g d0).
Qed.

Lemma ids_run evs : forall st,
  wf st ->
  (forall j g d, fetches st !! j = Some g -> outcome g = Some (Emit d) ->
     id d = fetch_id g \/ id d = FILE_NOT_FOUND_ID \/ id d = FETCHING_ERROR_ID) ->
  forall j g d, fetches (run evs st) !! j = Some g ->
    outcome g = Some (Emit d) ->
    id d = fetch_id g \/ id d = FILE_NOT_FOUND_ID \/ id d = FETCHING_ERROR_ID.
Proof.
  induction evs as [|ev evs IH]; intros st Hwf HP; simpl; [done|].
  apply IH; [by apply wf_step|].
  destruct ev as [path|k resp]; simpl.
  - intros j g d Hg Ho.
    destruct (navigate_back path st j g Hwf Hg) as [Hg0|Hnone]; [|congruence].
    by apply (HP j g d).
  - by apply ids_respond.
Qed.

Lemma ids_reachable evs j g d :
  fetches (run evs init) !! j = Some g -> outcome g = Some (Emit d) ->
  id d = fetch_id g \/ id d = FILE_NOT_FOUND_ID \/ id d = FETCHING_ERROR_ID.
Proof. apply (ids_run evs init wf_init). intros ? ? ? Hg. done. Qed.

(** X9: The id of a latched document is one of three.  The document that
    the subject of a fetch of id X holds has as its [id] X itself (a
    rendered answer), FILE_NOT_FOUND_ID (X was not found) or
    FETCHING_ERROR_ID (a fetch failed); no document of another id is ever
    handed out for X. *)
Theorem X9_latched_document_ids evs j g d :
  let st := run evs init in
  fetches st !! j = Some g -> outcome g = Some (Emit d) ->
  id d = fetch_id g \/ id d = FILE_NOT_FOUND_ID \/ id d = FETCHING_ERROR_ID.
Proof.
  intros st. apply ids_reachable.
Qed.

(** ** The stream of documents *)

Lemma step_delivers st ev :
  wf st ->
  delivered (currentDocument (step st ev)) = delivered (currentDocument st)
  \/ exists d h f,
       delivered (currentDocument (step st ev))
       = delivered (currentDocument st) ++ [d]
       /\ innerSubscription (currentDocument (step st ev)) = None
       /\ fetches (step st ev) !! h = Some f /\ outcome f = Some (Emit d).
Proof.
  intros Hwf. destruct ev as [path|k resp]; simpl.
  - destruct (navigate_spec path st Hwf) as (h & fh & _ & Hfh & _ & _ & ->).
    set (st0 := set_currentDocument
                  (mkSwitchMap None (delivered (currentDocument st)) None) st) in *.
    assert (Hwf1 : wf (getDocument path st0).1).
    { apply wf_getDocument, wf_set_currentDocument; [done|done|]. by intros ? [=]. }
    destruct (outcome fh) as [n|] eqn:Hn; [|by left].
    destruct (wf_outcome _ _ Hwf1 _ _ _ Hfh Hn) as [d ->].
    right. exists d, h, fh. simpl. by rewrite getDocument_stream.
  - destruct (respond_effect k resp st Hwf) as (hs & d & -> & Hft & _ & _).
    unfold stream_after.
    destruct (innerSubscription (currentDocument st)) as [x|] eqn:Hx; [|by left].
    destruct (decide (x ∈ hs)) as [Hin|Hin]; [|by left].
    destruct (wf_inner _ _ Hwf _ Hx) as (g & Hg & _).
    destruct (Hft _ _ Hg) as (g' & Hg' & _ & _ & Ho').
    rewrite decide_True in Ho' by done.
    right. by exists d, x, g'.
Qed.

(** X10: A turn emits one document at most.  What [currentDocument] has
    emitted is never taken back; a navigation or an answer of the transport
    adds nothing or one document, and that document is the one a subject
    holds at the end of the turn. *)
Theorem X10_one_emission_a_turn_at_most evs ev :
  let st := run evs init in
  delivered (currentDocument (step st ev)) = delivered (currentDocument st)
  \/ exists d h f,
       delivered (currentDocument (step st ev))
       = delivered (currentDocument st) ++ [d]
       /\ fetches (step st ev) !! h = Some f /\ outcome f = Some (Emit d).
Proof.
  intros st. destruct (step_delivers st ev (wf_reachable evs))
    as [?|(d & h & f & ? & _ & ? & ?)]; [by left|].
  right. by exists d, h, f.
Qed.

Lemma delivered_latched_run evs : forall st,
  wf st ->
  (forall d, d ∈ delivered (currentDocument st) ->
     exists k f, fetches st !! k = Some f /\ outcome f = Some (Emit d)) ->
  forall d, d ∈ delivered (currentDocument (run evs st)) ->
    exists k f, fetches (run evs st) !! k = Some f /\ outcome f = Some (Emit d).
Proof.
  induction evs as [|ev evs IH]; intros st Hwf HQ; simpl; [done|].
  apply IH; [by apply wf_step|].
  assert (Hold : forall d, d ∈ delivered (currentDocument st) ->
    exists k f, fetches (step st ev) !! k = Some f /\ outcome f = Some (Emit d)).
  { intros d Hd. destruct (HQ d Hd) as (k & f & Hf & Ho).
    destruct (outcome_step st ev k f _ Hwf Hf Ho) as (f' & Hf' & _ & Ho').
    by exists k, f'. }
  destruct (step_delivers st ev Hwf) as [->|(d0 & h & f & -> & _ & Hf & Ho)];
    [done|].
  intros d [Hd| ->%list_elem_of_singleton]%elem_of_app; [by apply Hold|].
  by exists h, f.
Qed.

(** X11: Nothing is emitted that no subject holds.  Every document that
    [currentDocument] has emitted is the latched value of the subject of
    some fetch, so its [id] is the id of that fetch, FILE_NOT_FOUND_ID or
    FETCHING_ERROR_ID. *)
Theorem X11_emitted_documents_are_latched evs d :
  let st := run evs init in
  d ∈ delivered (currentDocument st) ->
  exists k f, fetches st !! k = Some f /\ outcome f = Some (Emit d)
    /\ (id d = fetch_id f \/ id d = FILE_NOT_FOUND_ID \/ id d = FETCHING_ERROR_ID).
Proof.
  intros st Hd.
  destruct (delivered_latched_run evs init wf_init) with (d := d)
    as (k & f & Hf & Ho); [by intros ? ?%elem_of_nil|done|].
  exists k, f. split; [done|]. split; [done|].
  by apply (ids_reachable evs k f d).
Qed.

(** X12: The document of the current path is emitted in the turn that
    completes its subject.  If [switchMap] listens to subject [h] and an
    answer of the transport leaves [h] completed with a document, then that
    document has been emitted in the same turn and the inner subscription
    is gone. *)
Theorem X12_current_document_is_emitted_on_completion evs h k resp f' d :
  let st := run evs init in
  let st' := respond k resp st in
  innerSubscription (currentDocument st) = Some h ->
  fetches st' !! h = Some f' -> outcome f' = Some (Emit d) ->
  delivered (currentDocument st') = delivered (currentDocument st) ++ [d]
  /\ innerSubscription (currentDocument st') = None.
Proof.
  intros st st' Hin Hf' Ho'. pose proof (wf_reachable evs) as Hwf. fold st in Hwf.
  destruct (respond_effect k resp st Hwf) as (hs & d0 & Hs & Hft & _ & _).
  fold st' in Hs, Hft.
  destruct (wf_inner _ _ Hwf _ Hin) as (g & Hg & Hog).
  destruct (Hft _ _ Hg) as (g' & Hg' & _ & _ & Hout).
  rewrite Hf' in Hg'. injection Hg' as <-.
  rewrite Hs. unfold stream_after. rewrite Hin.
  destruct (decide (h ∈ hs)) as [Hh|Hh]; [|congruence].
  assert (d0 = d) as -> by congruence. done.
Qed.

(** X13: After a 404 on the not-found document itself every waiting id
    gets the built-in document.  When the request for the not-found
    document is answered with a 404 while the subjects of missing ids wait
    for it, its subject and each waiting subject latch
    { id: FILE_NOT_FOUND_ID, contents: "Document not found" }; the
    not-found entry stays cached and no request is made. *)
Theorem X13_built_in_not_found_reaches_the_waiting_ids evs h fh k :
  let st := run evs init in
  fetches st !! h = Some fh -> k ∈ observers fh ->
  let st' := respond h (Failure 404) st in
  (exists fh' fk',
     fetches st' !! h = Some fh' /\ fetches st' !! k = Some fk'
     /\ outcome fh'
        = Some (Emit (mkDoc FILE_NOT_FOUND_ID (MString "Document not found")))
     /\ outcome fk'
        = Some (Emit (mkDoc FILE_NOT_FOUND_ID (MString "Document not found"))))
  /\ cache st' !! FILE_NOT_FOUND_ID = Some (AsObservable h)
  /\ transport_calls st' = transport_calls st.
Proof.
  intros st Hfh Hk st'. pose proof (wf_reachable evs) as Hwf. fold st in Hwf.
  destruct (wf_observers _ _ Hwf _ _ _ Hfh Hk)
    as (Hoh & Hidh & fk & Hfk & Hidk & _ & _).
  destruct (observed_answer st h fh k Hwf Hfh Hk) as [Hah _].
  pose proof (respond_not_found_itself h (Failure 404) st fh Hwf Hfh Hah _
                (pipe_failure _ _) eq_refl Hidh) as Heq.
  fold st' in Heq. rewrite Heq.
  assert (Hk1 : fetches (mark_answered h st) !! k = Some fk).
  { apply (mark_answered_lookup _ _ _ _ _ Hfh). exists fk. split; [done|].
    rewrite decide_False; [done|]. intros ->. congruence. }
  split; [|split].
  - eexists _, _. split;
      [apply settle_all_self; [by apply mark_answered_self|set_solver]|].
    split; [apply settle_all_self; [exact Hk1|set_solver]|done].
  - simpl. rewrite mark_answered_cache, <- Hidh. by eapply open_cached.
  - by rewrite transport_calls_settle_all, transport_calls_mark_answered.
Qed.

(** ** The resolver, once more *)

Lemma spec_source_doc_cases i :
  spec_source_doc i = i
  \/ In (spec_source_doc i)
       [ "guide/store/index"; "guide/effects/index"; "guide/entity/index";
         "guide/router-store/index"; "guide/store-devtools/index";
         "guide/data/index"; "guide/schematics/index"; "placeholder" ].
Proof.
  clear baseHref compile functionSource.
  unfold spec_source_doc. simpl.
  repeat match goal with
         | |- context [String.eqb i ?s] => destruct (String.eqb i s)
         end; simpl; tauto.
Qed.

(** X14: Resolving a source document again changes nothing.  For an id
    that names no property of Object.prototype, the source document is not
    such a name either and is its own source document; so an id and the
    document it is resolved to ask the transport for the same path (and, by
    X1, are fetched and cached apart). *)
Theorem X14_source_document_is_its_own_source i :
  inherited i = false ->
  inherited (spec_source_doc i) = false
  /\ spec_source_doc (spec_source_doc i) = spec_source_doc i
  /\ requestPath (spec_source_doc i) = requestPath i.
Proof.
  clear compile. intros Hi.
  assert (H : inherited (spec_source_doc i) = false
              /\ spec_source_doc (spec_source_doc i) = spec_source_doc i).
  { destruct (spec_source_doc_cases i) as [Heq|Hin]; [by rewrite !Heq|].
    simpl in Hin.
    repeat (destruct Hin as [<-|Hin]; [split; reflexivity|]). done. }
  destruct H as [H1 H2]. split; [done|]. split; [done|].
  rewrite (requestPath_own_keys _ H1), (requestPath_own_keys _ Hi). by rewrite H2.
Qed.

(** ** Coming back to a path *)

(** X15: A failed id recovers on the next visit.  After the request of a
    fetch of id Y has failed with a status other than 404, a navigation to Y
    sends a new request for the source path of Y, and when that one is
    answered with a text the rendered document of Y is emitted and Y is
    cached with the new subject. *)
Theorem X15_failed_id_is_fetched_anew evs k f status body c :
  let st := run evs init in
  fetches st !! k = Some f -> answered f = false -> status <> 404%Z ->
  compile body = Returns c ->
  let st1 := respond k (Failure status) st in
  let st2 := navigate (fetch_id f) st1 in
  let h := length (fetches st) in
  let st3 := respond h (Ok body) st2 in
  transport_calls st2 = transport_calls st ++ [requestPath (fetch_id f)]
  /\ innerSubscription (currentDocument st2) = Some h
  /\ delivered (currentDocument st3)
     = delivered (currentDocument st1) ++ [mkDoc (fetch_id f) c]
  /\ cache st3 !! fetch_id f = Some (AsObservable h)
  /\ k <> h.
Proof.
  intros st Hf Ha Hs Hc st1 st2 h st3.
  pose proof (wf_reachable evs) as Hwf. fold st in Hwf.
  assert (He : status_is_404 (HttpErrorResponse status) = false)
    by (by apply Z.eqb_neq).
  pose proof (respond_generic k (Failure status) st f Hwf Hf Ha _
                (pipe_failure _ _) He) as Heq1.
  fold st1 in Heq1.
  assert (Hwf1 : wf st1) by by apply wf_respond.
  assert (Hid : document_id (fetch_id f) = fetch_id f).
  { apply document_id_id. exact (wf_id_nonempty _ _ _ _ Hwf Hf). }
  assert (Hc1 : cache st1 !! document_id (fetch_id f) = None).
  { rewrite Hid, Heq1. simpl. apply lookup_delete_eq. }
  assert (Hlen : length (fetches st1) = h).
  { rewrite Heq1. unfold settle_all; simpl.
    by rewrite length_imap, mark_answered_length. }
  assert (Hcalls1 : transport_calls st1 = transport_calls st).
  { rewrite Heq1.
    by rewrite transport_calls_settle_all, transport_calls_set_cache,
      transport_calls_mark_answered. }
  set (new := mkFetch (fetch_id f) (requestPath (fetch_id f)) false None []).
  assert (Heq2 : st2
    = mkState (<[fetch_id f := AsObservable h]> (cache st1))
        (fetches st1 ++ [new])
        (mkSwitchMap (Some h) (delivered (currentDocument st1)) None)).
  { unfold st2, navigate. rewrite (wf_stream _ _ Hwf1).
    rewrite getDocument_miss by done. simpl.
    rewrite lookup_app_r, Hlen, Nat.sub_diag by lia. simpl.
    by rewrite Hid. }
  assert (Hwf2 : wf st2) by by apply wf_navigate.
  assert (Hh2 : fetches st2 !! h = Some new).
  { rewrite Heq2. simpl. by rewrite lookup_app_r, Hlen, Nat.sub_diag by lia. }
  split; [|split; [|split; [|split]]].
  - rewrite Heq2, <- Hcalls1. unfold transport_calls; simpl.
    by rewrite fmap_app.
  - by rewrite Heq2.
  - unfold st3.
    rewrite (respond_success h (Ok body) st2 new Hwf2 Hh2 eq_refl _
               (pipe_ok _ _ _ Hc)).
    unfold settle_all; simpl. rewrite mark_answered_stream.
    rewrite Heq2. simpl. by rewrite decide_True by set_solver.
  - destruct (respond_ok h body c st2 new Hwf2 Hh2 eq_refl Hc) as (_ & Hc3 & _).
    unfold st3. rewrite Hc3, Heq2. simpl. by rewrite lookup_insert_eq.
  - apply lookup_lt_Some in Hf. unfold h. lia.
Qed.

End Service.

(** * The service at work *)

Local Abbreviation docs_run := (run "/" paragraph_renderer v8_functionSource).
Local Abbreviation docs_respond := (respond "/" paragraph_renderer v8_functionSource).
Local Abbreviation docs_navigate := (navigate "/" v8_functionSource).
Local Abbreviation docs_getDocument := (getDocument "/" v8_functionSource).

Local Abbreviation store_fetch :=
  (mkFetch "guide/store" "/content/docs/guide/store/index.md" false None []).

(** C8: The pipe does not look at what the renderer returned.  With a
    renderer that returns null, a successful answer for "guide/store" ends as
    the document { id: "guide/store", contents: null }: it is latched by the
    subject and emitted by [currentDocument], the id stays in the cache, and
    no fetching-error document is made.  The check in [tap] is applied to the
    object literal built by [map], which is always an object. *)
Theorem C8_null_contents_are_not_rejected :
  let st := run "/" null_renderer v8_functionSource
              [Navigate "guide/store"; Respond 0 (Ok "# Store")] init in
  pipe null_renderer "guide/store" (Ok "# Store") = Emit (mkDoc "guide/store" MNull)
  /\ fetches st !! 0
     = Some (mkFetch "guide/store" "/content/docs/guide/store/index.md" true
               (Some (Emit (mkDoc "guide/store" MNull))) [])
  /\ cache st !! "guide/store" = Some (AsObservable 0)
  /\ delivered (currentDocument st) = [mkDoc "guide/store" MNull]
  /\ errored (currentDocument st) = None.
Proof. vm_compute. repeat split; reflexivity. Qed.

(** Two ids miss, and the fetch of the not-found document fails with a 500
    in between: the transport is asked for the not-found content twice. *)
Lemma C6_counterexample :
  let st := docs_run [Navigate "a"; Respond 0 (Failure 404);
                      Respond 1 (Failure 500);
                      Navigate "b"; Respond 2 (Failure 404)] init in
  transport_calls st
  = ["/content/docs/a.md"; "/content/docs/file-not-found.md";
     "/content/docs/b.md"; "/content/docs/file-not-found.md"]
  /\ ~ (length (not_found_fetches st) <= 1).
Proof.
  split; [vm_compute; reflexivity|].
  vm_compute. intros H. inversion H as [|? H']. inversion H'.
Qed.

(** The result of a superseded path arrives and is dropped. *)
Example stale_result_is_dropped :
  delivered (currentDocument
               (docs_run [Navigate "a"; Navigate "b";
                          Respond 0 (Ok "A"); Respond 1 (Ok "B")] init))
  = [mkDoc "b" (MString "<p>B</p>")].
Proof. vm_compute. reflexivity. Qed.

(** The id "constructor" is mistaken for an alias. *)
Example constructor_is_no_alias :
  requestPath "/" v8_functionSource "constructor"
  = "/content/docs/function Object() { [native code] }.md".
Proof. reflexivity. Qed.

(** ** The statements with hypotheses, at concrete runs *)


Lemma C1_witness :
  let st := docs_run [Navigate "guide/store"] init in
  let st' := docs_run [Navigate "guide/store"] (docs_respond 0 (Ok "# Store") st) in
  fetches st !! 0 = Some store_fetch
  /\ docs_getDocument "guide/store" st' = (st', AsObservable 0).
Proof.
  split; [reflexivity|].
  destruct (C1_getDocument_shares_one_fetch "/" paragraph_renderer v8_functionSource
              [Navigate "guide/store"]) as (_ & _ & _ & H).
  destruct (H 0 store_fetch "# Store" (MString "<p># Store</p>")
              [Navigate "guide/store"] eq_refl eq_refl eq_refl) as [Hg _].
  exact Hg.
Defined.

Lemma C2_witness :
  let st := docs_run [Navigate "a"; Respond 0 (Failure 404)] init in
  fetches st !! 1
  = Some (mkFetch "file-not-found" "/content/docs/file-not-found.md" false None [0])
  /\ exists d g gk,
       fetches (docs_respond 1 (Failure 500) st) !! 1 = Some g
       /\ outcome g = Some (Emit d)
       /\ fetches (docs_respond 1 (Failure 500) st) !! 0 = Some gk
       /\ outcome gk = Some (Emit d).
Proof.
  split; [reflexivity|].
  destruct (C2_every_fetch_ends_in_a_document "/" paragraph_renderer v8_functionSource
              [Navigate "a"; Respond 0 (Failure 404)]) as (_ & _ & _ & _ & _ & H).
  destruct (H 1 (mkFetch "file-not-found" "/content/docs/file-not-found.md"
                   false None [0]) 0 eq_refl) as [_ Hall].
  - simpl. constructor.
  - exact (Hall (Failure 500)).
Defined.

Lemma C4_witness :
  let st := docs_run [Navigate "guide/store"] init in
  fetches st !! 0 = Some store_fetch
  /\ exists f', fetches (docs_respond 0 (Ok "# Store") st) !! 0 = Some f'
       /\ outcome f' = Some (Emit (mkDoc "guide/store" (MString "<p># Store</p>"))).
Proof.
  split; [reflexivity|].
  exact (proj1 (proj2 (C4_success_keeps_requested_id "/" paragraph_renderer
                         v8_functionSource [Navigate "guide/store"] 0 store_fetch
                         "# Store" (MString "<p># Store</p>")
                         eq_refl eq_refl eq_refl))).
Defined.

Lemma C5_witness :
  let st := docs_run [Navigate "guide/store"] init in
  fetches st !! 0 = Some store_fetch
  /\ cache (docs_respond 0 (Failure 500) st) !! "guide/store" = None.
Proof.
  split; [reflexivity|].
  assert (H : (500 <> 404)%Z) by discriminate.
  exact (proj1 (proj2 (C5_generic_failure_evicts "/" paragraph_renderer
                         v8_functionSource [Navigate "guide/store"] 0 store_fetch
                         500%Z eq_refl eq_refl H))).
Defined.

Lemma C6_witness :
  let st := docs_run [Navigate "a"] init in
  fetches st !! 0 = Some (mkFetch "a" "/content/docs/a.md" false None [])
  /\ cache (docs_respond 0 (Failure 404) st) !! "a" = Some (AsObservable 0).
Proof.
  split; [reflexivity|].
  assert (H : "a" <> FILE_NOT_FOUND_ID) by discriminate.
  exact (proj1 (proj2 (proj2 (proj2 (proj2
           (C6_not_found_reuses_cached_fetch "/" paragraph_renderer
              v8_functionSource [Navigate "a"] 0
              (mkFetch "a" "/content/docs/a.md" false None [])
              eq_refl eq_refl H)))))).
Defined.


Lemma C9_witness :
  innerSubscription (currentDocument (docs_navigate "a" init)) <> None
  /\ delivered (currentDocument (docs_navigate "a" init)) = [].
Proof.
  split; [discriminate|].
  apply (proj1 (C9_only_the_latest_path_is_emitted "/" paragraph_renderer
                  v8_functionSource [] "a" [] "b" [])).
  discriminate.
Defined.

Lemma C10_witness :
  null_renderer "# Store" = Returns MNull
  /\ pipe null_renderer "guide/store" (Ok "# Store")
     = Emit (mkDoc "guide/store" MNull).
Proof.
  split; [reflexivity|].
  exact (proj1 (proj2 (proj2 (C10_invalid_data_is_unreachable null_renderer
                                "guide/store" "# Store"))) eq_refl).
Defined.

(** ** More statements at concrete runs *)

Local Abbreviation not_found_fetch_awaited :=
  (mkFetch "file-not-found" "/content/docs/file-not-found.md" false None [0]).

Local Abbreviation store_document :=
  (mkDoc "guide/store" (MString "<p># Store</p>")).

Lemma X1_witness :
  document_id "resources" <> document_id "events"
  /\ transport_calls
       (getDocument "/" v8_functionSource "events"
          (getDocument "/" v8_functionSource "resources" init).1).1
     = ["/content/docs/placeholder.md"; "/content/docs/placeholder.md"].
Proof.
  assert (H : document_id "resources" <> document_id "events") by discriminate.
  split; [exact H|].
  exact (proj1 (proj2 (proj2
           (proj2 (X1_dedup_is_per_id_not_per_source "/" paragraph_renderer
                     v8_functionSource [] "resources" "events")
              H eq_refl eq_refl)))).
Defined.

Lemma X3_witness :
  let st := docs_run [Navigate "guide/store"; Respond 0 (Ok "# Store")] init in
  fetches st !! 0
  = Some (mkFetch "guide/store" "/content/docs/guide/store/index.md" true
            (Some (Emit store_document)) [])
  /\ exists f',
       fetches (docs_run [Navigate "a"; Respond 1 (Failure 500)] st) !! 0 = Some f'
       /\ fetch_id f' = "guide/store" /\ outcome f' = Some (Emit store_document).
Proof.
  split; [reflexivity|].
  exact (X3_latched_value_is_final "/" paragraph_renderer v8_functionSource
           [Navigate "guide/store"; Respond 0 (Ok "# Store")]
           [Navigate "a"; Respond 1 (Failure 500)] 0
           (mkFetch "guide/store" "/content/docs/guide/store/index.md" true
              (Some (Emit store_document)) [])
           (Emit store_document) eq_refl eq_refl).
Defined.

Lemma X4_witness :
  let st := docs_run [Navigate "a"; Respond 0 (Failure 404)] init in
  let st' := docs_respond 1 (Failure 500) st in
  fetches st !! 1 = Some not_found_fetch_awaited
  /\ docs_getDocument "a" st' = (st', AsObservable 0).
Proof.
  split; [reflexivity|].
  assert (H : (500 <> 404)%Z) by discriminate.
  assert (Hin : 0 ∈ observers not_found_fetch_awaited) by (simpl; constructor).
  exact (proj2 (proj2 (proj2
           (X4_error_of_not_found_fetch_sticks "/" paragraph_renderer
              v8_functionSource [Navigate "a"; Respond 0 (Failure 404)] 1
              not_found_fetch_awaited 0
              (mkFetch "a" "/content/docs/a.md" true None []) 500%Z []
              eq_refl Hin eq_refl H)))).
Defined.

Lemma X5_witness :
  let throwing := fun _ : string => @Throws Markup (Error "bad markdown") in
  let st := run "/" throwing v8_functionSource [Navigate "guide/store"] init in
  fetches st !! 0 = Some store_fetch
  /\ cache (respond "/" throwing v8_functionSource 0 (Ok "# Store") st)
       !! "guide/store" = None.
Proof.
  split; [reflexivity|].
  exact (proj1 (proj2
           (X5_renderer_exception_is_a_generic_failure "/"
              (fun _ : string => @Throws Markup (Error "bad markdown"))
              v8_functionSource [Navigate "guide/store"] 0 store_fetch "# Store"
              "bad markdown" eq_refl eq_refl eq_refl))).
Defined.

Lemma X6_witness :
  let st := docs_run [Navigate "guide/store"; Respond 0 (Ok "# Store")] init in
  cache st !! "guide/store" = Some (AsObservable 0)
  /\ delivered (currentDocument (docs_navigate "guide/store" st))
     = [store_document; store_document].
Proof.
  split; [reflexivity|].
  rewrite (proj1 (X6_navigation_to_cached_id_replays_or_joins "/" paragraph_renderer
                    v8_functionSource
                    [Navigate "guide/store"; Respond 0 (Ok "# Store")]
                    "guide/store" 0
                    (mkFetch "guide/store" "/content/docs/guide/store/index.md" true
                       (Some (Emit store_document)) [])
                    eq_refl eq_refl) store_document eq_refl).
  reflexivity.
Defined.

Lemma X7_witness :
  let st := docs_run [Navigate "guide/store"] init in
  fetches st !! 0 = Some store_fetch
  /\ exists f',
       fetches (docs_respond 0 (Ok "# Store") (docs_navigate "a" st)) !! 0 = Some f'
       /\ outcome f' = Some (Emit store_document).
Proof.
  split; [reflexivity|].
  exact (proj2 (proj2 (X7_navigation_cancels_nothing "/" paragraph_renderer
                         v8_functionSource [Navigate "guide/store"] "a"))
           0 store_fetch "# Store" (MString "<p># Store</p>")
           eq_refl eq_refl eq_refl).
Defined.

Lemma X8_witness :
  cache (docs_run [Navigate EmptyString] init) !! "index" = Some (AsObservable 0)
  /\ "index" <> EmptyString.
Proof.
  split; [reflexivity|].
  exact (proj1 (X8_cache_entries_are_fetches_of_their_key "/" paragraph_renderer
                  v8_functionSource [Navigate EmptyString] "index" (AsObservable 0)
                  eq_refl)).
Defined.

Lemma X9_witness :
  let st := docs_run [Navigate "a"; Respond 0 (Failure 404); Respond 1 (Ok "gone")]
              init in
  fetches st !! 0
  = Some (mkFetch "a" "/content/docs/a.md" true
            (Some (Emit (mkDoc "file-not-found" (MString "<p>gone</p>")))) [])
  /\ ("file-not-found" = "a" \/ "file-not-found" = FILE_NOT_FOUND_ID
      \/ "file-not-found" = FETCHING_ERROR_ID).
Proof.
  split; [reflexivity|].
  exact (X9_latched_document_ids "/" paragraph_renderer v8_functionSource
           [Navigate "a"; Respond 0 (Failure 404); Respond 1 (Ok "gone")] 0
           (mkFetch "a" "/content/docs/a.md" true
              (Some (Emit (mkDoc "file-not-found" (MString "<p>gone</p>")))) [])
           (mkDoc "file-not-found" (MString "<p>gone</p>")) eq_refl eq_refl).
Defined.

Lemma X11_witness :
  let st := docs_run [Navigate "guide/store"; Respond 0 (Ok "# Store")] init in
  store_document ∈ delivered (currentDocument st)
  /\ exists k f, fetches st !! k = Some f /\ outcome f = Some (Emit store_document)
       /\ (id store_document = fetch_id f
           \/ id store_document = FILE_NOT_FOUND_ID
           \/ id store_document = FETCHING_ERROR_ID).
Proof.
  assert (H : store_document
              ∈ delivered (currentDocument
                             (docs_run [Navigate "guide/store";
                                        Respond 0 (Ok "# Store")] init)))
    by (vm_compute; constructor).
  split; [exact H|].
  exact (X11_emitted_documents_are_latched "/" paragraph_renderer v8_functionSource
           [Navigate "guide/store"; Respond 0 (Ok "# Store")] store_document H).
Defined.

Lemma X12_witness :
  let st := docs_run [Navigate "guide/store"] init in
  innerSubscription (currentDocument st) = Some 0
  /\ delivered (currentDocument (docs_respond 0 (Ok "# Store") st))
     = [] ++ [store_document].
Proof.
  split; [reflexivity|].
  exact (proj1 (X12_current_document_is_emitted_on_completion "/" paragraph_renderer
                  v8_functionSource [Navigate "guide/store"] 0 0 (Ok "# Store")
                  (mkFetch "guide/store" "/content/docs/guide/store/index.md" true
                     (Some (Emit store_document)) [])
                  store_document eq_refl eq_refl eq_refl)).
Defined.

Lemma X13_witness :
  let st := docs_run [Navigate "a"; Respond 0 (Failure 404)] init in
  fetches st !! 1 = Some not_found_fetch_awaited
  /\ cache (docs_respond 1 (Failure 404) st) !! FILE_NOT_FOUND_ID
     = Some (AsObservable 1).
Proof.
  split; [reflexivity|].
  assert (Hin : 0 ∈ observers not_found_fetch_awaited) by (simpl; constructor).
  exact (proj1 (proj2
           (X13_built_in_not_found_reaches_the_waiting_ids "/" paragraph_renderer
              v8_functionSource [Navigate "a"; Respond 0 (Failure 404)] 1
              not_found_fetch_awaited 0 eq_refl Hin))).
Defined.

Lemma X14_witness :
  inherited "guide/store" = false
  /\ requestPath "/" v8_functionSource (spec_source_doc "guide/store")
     = requestPath "/" v8_functionSource "guide/store".
Proof.
  split; [reflexivity|].
  exact (proj2 (proj2 (X14_source_document_is_its_own_source "/" v8_functionSource
                         "guide/store" eq_refl))).
Defined.

Lemma X15_witness :
  let st := docs_run [Navigate "guide/store"] init in
  let st1 := docs_respond 0 (Failure 500) st in
  fetches st !! 0 = Some store_fetch
  /\ delivered (currentDocument
                  (docs_respond 1 (Ok "# Store") (docs_navigate "guide/store" st1)))
     = delivered (currentDocument st1) ++ [store_document].
Proof.
  split; [reflexivity|].
  assert (H : (500 <> 404)%Z) by discriminate.
  exact (proj1 (proj2 (proj2
           (X15_failed_id_is_fetched_anew "/" paragraph_renderer v8_functionSource
              [Navigate "guide/store"] 0 store_fetch 500%Z "# Store"
              (MString "<p># Store</p>") eq_refl eq_refl H eq_refl)))).
Defined.
